(** * TracePad: the provenance interval engine

    A shallow embedding of the provenance tracking core of the editor:
    [text_tracker.py] (the interval set kept for the live buffer),
    [metadata_manager.py] (envelope codec, validation, merge, statistics)
    and [file_manager.py] (the embedded-document format).

    Conventions.  Python integers are [Z]; [str] is [string] (a sequence of
    one-byte characters); a float is kept as the decimal literal that
    [repr] prints for it, and the percentages of [get_stats] as exact
    rationals; dictionaries of dynamic shape are insertion-ordered
    association lists; the clock ([time.time()]) is an argument of the
    operations that read it. *)

From Stdlib Require Import ZArith QArith Bool List String Ascii Lia.
From Stdlib Require Import Permutation Sorted.
From Stdlib Require Import DecimalString DecimalZ DecimalFacts.
From stdpp Require Import base list strings.

Local Open Scope string_scope.
Local Open Scope list_scope.
Local Open Scope Z_scope.

(** ** Python values and built-ins *)

Module py.

(** A float, by its literal: integer part, fractional digits ([Nil] when
    the literal has no point) and exponent, as in [1730000000.25] or
    [1e-07]. *)
Record float := Float {
  f_int : Decimal.signed_int;
  f_frac : Decimal.uint;
  f_exp : option Decimal.signed_int
}.

(** The values that travel through the codec. A [PDict] lists its items in
    insertion order. *)
#[local] Unset Elimination Schemes.
Inductive val :=
| PNone
| PBool (b : bool)
| PInt (z : Z)
| PFloat (f : float)
| PStr (s : string)
| PList (l : list val)
| PDict (d : list (string * val)).
#[local] Set Elimination Schemes.

(** [len(x)] *)
Definition len {A} (l : list A) : Z := Z.of_nat (List.length l).
Definition str_len (s : string) : Z := Z.of_nat (String.length s).

(** [key in d] and [d[key]] / [d.get(key)] on a dictionary. *)
Fixpoint dict_get {V} (key : string) (d : list (string * V)) : option V :=
  match d with
  | [] => None
  | (k, v) :: d' => if String.eqb k key then Some v else dict_get key d'
  end.

Definition dict_has {V} (key : string) (d : list (string * V)) : bool :=
  match dict_get key d with Some _ => true | None => false end.

(** [d[key] = v]: an existing key keeps its place, a new one goes last. *)
Fixpoint dict_set {V} (key : string) (v : V) (d : list (string * V))
  : list (string * V) :=
  match d with
  | [] => [(key, v)]
  | (k, w) :: d' =>
      if String.eqb k key then (k, v) :: d' else (k, w) :: dict_set key v d'
  end.

(** [list.sort(key=...)]: the stable sort. An element is placed before the
    first later element whose key is not smaller, so equal keys keep their
    order. *)
Fixpoint insert_by {A} (key : A -> Z) (x : A) (l : list A) : list A :=
  match l with
  | [] => [x]
  | y :: l' => if key x <=? key y then x :: l else y :: insert_by key x l'
  end.

Definition sort {A} (key : A -> Z) (l : list A) : list A :=
  foldr (insert_by key) [] l.

(** [l[-1] = x] on a non-empty list. *)
Definition set_last {A} (l : list A) (x : A) : list A :=
  <[Nat.pred (List.length l) := x]> l.

(** [l[i]] with Python's negative indices; [None] is [IndexError]. *)
Definition index {A} (l : list A) (i : Z) : option A :=
  if 0 <=? i then l !! Z.to_nat i
  else if - len l <=? i then l !! Z.to_nat (len l + i)
  else None.

(** [str.isspace] on one character: the ASCII white space of [str.strip]. *)
Definition is_space (c : ascii) : bool :=
  let n := nat_of_ascii c in
  ((9 <=? n) && (n <=? 13) || (28 <=? n) && (n <=? 32))%nat.

Fixpoint lstrip (s : string) : string :=
  match s with
  | String c s' => if is_space c then lstrip s' else s
  | EmptyString => EmptyString
  end.

Fixpoint rstrip (s : string) : string :=
  match s with
  | EmptyString => EmptyString
  | String c s' =>
      match rstrip s' with
      | EmptyString => if is_space c then EmptyString else String c EmptyString
      | t => String c t
      end
  end.

Definition strip (s : string) : string := rstrip (lstrip s).

(** [s.find(sub, start)] for [0 <= start]: the least index at or after
    [start] where [sub] occurs, [-1] when there is none. *)
Definition find (s sub : string) (start : nat) : Z :=
  match String.index start sub s with
  | Some i => Z.of_nat i
  | None => -1
  end.

(** [s[:n]] and [s[a:b]] for indices inside the string. *)
Definition slice_to (s : string) (n : nat) : string := String.substring 0 n s.
Definition slice (s : string) (a b : nat) : string :=
  String.substring a (b - a) s.

(** [s.split(sep)] for a one-character separator. *)
Fixpoint split (sep : ascii) (s : string) : list string :=
  match s with
  | EmptyString => [EmptyString]
  | String c s' =>
      if Ascii.eqb c sep then EmptyString :: split sep s'
      else match split sep s' with
           | w :: ws => String c w :: ws
           | [] => [String c EmptyString]
           end
  end.

(** Exceptions: an operation returns a value or raises. *)
Inductive exn := JSONDecodeError | KeyError | TypeError.

Inductive result (A : Type) :=
| Ok (a : A)
| Raise (e : exn).
Arguments Ok {A} a.
Arguments Raise {A} e.

#[export] Instance result_ret : MRet result := fun A a => Ok a.
#[export] Instance result_bind : MBind result := fun A B f m =>
  match m with
  | Ok a => f a
  | Raise e => Raise e
  end.

(** [try: body except Exception: handler] *)
Definition try_except {A} (body : result A) (handler : exn -> result A)
  : result A :=
  match body with
  | Ok a => Ok a
  | Raise e => handler e
  end.

(** [key in data] for a string [key]: a key of a dictionary, an element of
    a list, a substring of a string; [TypeError] on the other values. *)
Definition contains (key : string) (data : val) : result bool :=
  match data with
  | PDict d => Ok (dict_has key d)
  | PList l =>
      Ok (existsb (fun x => match x with
                            | PStr s => String.eqb s key
                            | _ => false
                            end) l)
  | PStr s =>
      Ok (match String.index 0 key s with Some _ => true | None => false end)
  | _ => Raise TypeError
  end.

(** [data[key]] for a string [key]. *)
Definition getitem (data : val) (key : string) : result val :=
  match data with
  | PDict d =>
      match dict_get key d with
      | Some v => Ok v
      | None => Raise KeyError
      end
  | _ => Raise TypeError
  end.

(** [isinstance(v, int)], which holds of a [bool] too, and the integer a
    value stands for in a comparison. *)
Definition as_int (v : val) : option Z :=
  match v with
  | PInt z => Some z
  | PBool b => Some (if b then 1 else 0)
  | _ => None
  end.

(** [s[:i]] for any integer [i]: a negative [i] counts from the end. *)
Definition slice_to_z (s : string) (i : Z) : string :=
  if 0 <=? i then slice_to s (Z.to_nat i)
  else slice_to s (Z.to_nat (str_len s + i)).

(** [s.endswith(suffix)] *)
Definition endswith (s suffix : string) : bool :=
  (String.length suffix <=? String.length s)%nat
  && String.eqb (String.substring (String.length s - String.length suffix)
                   (String.length suffix) s) suffix.

(** [s.lower()], on ASCII letters. *)
Definition lower_char (c : ascii) : ascii :=
  let n := nat_of_ascii c in
  if ((65 <=? n) && (n <=? 90))%nat then ascii_of_nat (n + 32) else c.

Fixpoint lower (s : string) : string :=
  match s with
  | EmptyString => EmptyString
  | String c s' => String (lower_char c) (lower s')
  end.

(** [for x in v]: the elements of a list, the characters of a string,
    the keys of a dictionary; [None] is [TypeError]. *)
Definition iter (v : val) : option (list val) :=
  match v with
  | PList l => Some l
  | PStr s =>
      Some (map (fun c => PStr (String c EmptyString)) (list_ascii_of_string s))
  | PDict d => Some (map (fun kv => PStr (fst kv)) d)
  | _ => None
  end.

(** [bool(v)] *)
Definition all_zero (d : Decimal.uint) : bool :=
  match Decimal.nzhead d with Decimal.Nil => true | _ => false end.

Definition truthy (v : val) : bool :=
  match v with
  | PNone => false
  | PBool b => b
  | PInt z => negb (z =? 0)
  | PFloat f =>
      negb (all_zero match f_int f with Decimal.Pos d | Decimal.Neg d => d end
            && all_zero (f_frac f))
  | PStr s => negb (String.eqb s "")
  | PList l => match l with [] => false | _ => true end
  | PDict d => match d with [] => false | _ => true end
  end.

End py.

(** ** The interval model *)

(** One tracked range, [{start, end, source, timestamp}]. The engine never
    reads the time stamp; it only carries it. *)
Record range := Range {
  start : Z;
  end_ : Z;
  source : string;
  timestamp : py.val
}.

Definition set_end (r : range) (e : Z) : range :=
  {| start := start r; end_ := e; source := source r;
     timestamp := timestamp r |}.

(** ** text_tracker.py *)

Module text_tracker.

(** A position handed to the tracker: a Tk index [line.col] (already
    split at the point and read as two integers), a string that does not
    split or convert (the [except] branch), or a plain integer offset. *)
Inductive position :=
| TkIndex (line col : Z)
| BadIndex
| Offset (i : Z).

(** The tracker. [text_widget] is the content of the attached widget
    ([get("1.0", END + "-1c")]), [None] before [set_text_widget]; the host
    editor changes it between calls. *)
Record TextTracker := Tracker {
  text_widget : option string;
  input_ranges : list range
}.

(** [__init__]: no widget, no range. *)
Definition init : TextTracker :=
  {| text_widget := None; input_ranges := [] |}.

Definition set_text_widget (t : TextTracker) (content : string) : TextTracker :=
  {| text_widget := Some content; input_ranges := input_ranges t |}.

Definition clear (t : TextTracker) : TextTracker :=
  {| text_widget := text_widget t; input_ranges := [] |}.

(** [_pos_to_index]: the character offset of a position in the widget's
    text. Any exception inside gives 0. *)
Definition _pos_to_index (text_content : string) (pos : position) : Z :=
  match pos with
  | TkIndex line col =>
      let line := line - 1 in
      let lines := py.split "010"%char text_content in
      let index :=
        foldl (fun index i =>
                 match lines !! i with
                 | Some l => index + (py.str_len l + 1)
                 | None => index
                 end) 0 (seq 0 (Z.to_nat line)) in
      if line <? py.len lines then
        match py.index lines line with
        | Some l => index + Z.min col (py.str_len l)
        | None => 0
        end
      else index + Z.min col 0
  | BadIndex => 0
  | Offset i => i
  end.

(** [_handle_deletions], for a widget holding [current_length]
    characters. *)
Definition _handle_deletions (current_length : Z) (input_ranges : list range)
  : list range :=
  foldl (fun new_ranges r =>
           if start r >=? current_length then new_ranges
           else
             let r := set_end r (Z.min (end_ r) current_length) in
             if end_ r >? start r then new_ranges ++ [r] else new_ranges)
        [] input_ranges.

(** The first loop of [_update_ranges]: where one existing range goes when
    [start_idx .. end_idx] is inserted. *)
Definition shift_step (start_idx end_idx : Z) (new_ranges : list range)
  (r : range) : list range :=
  let insertion_length := end_idx - start_idx in
  let r_start := start r in
  let r_end := end_ r in
  if r_end <=? start_idx then new_ranges ++ [r]
  else if r_start >=? start_idx then
    new_ranges ++ [ {| start := r_start + insertion_length;
                       end_ := r_end + insertion_length;
                       source := source r;
                       timestamp := timestamp r |} ]
  else
    let new_ranges :=
      if r_start <? start_idx then
        new_ranges ++ [ {| start := r_start; end_ := start_idx;
                           source := source r; timestamp := timestamp r |} ]
      else new_ranges in
    if r_end >? start_idx then
      new_ranges ++ [ {| start := end_idx; end_ := r_end + insertion_length;
                         source := source r; timestamp := timestamp r |} ]
    else new_ranges.

(** The last loop of [_update_ranges]: a range that continues the last
    merged one (same source, touching) extends it. *)
Definition coalesce_step (merged : list range) (r : range) : list range :=
  match last merged with
  | Some m =>
      if String.eqb (source m) (source r) && (end_ m =? start r)
      then py.set_last merged (set_end m (end_ r))
      else merged ++ [r]
  | None => merged ++ [r]
  end.

Definition _update_ranges (current_length : Z) (input_ranges : list range)
  (start_idx end_idx : Z) (src : string) (now : py.float) : list range :=
  let input_ranges := _handle_deletions current_length input_ranges in
  let new_ranges := foldl (shift_step start_idx end_idx) [] input_ranges in
  let new_ranges :=
    new_ranges ++ [ {| start := start_idx; end_ := end_idx; source := src;
                       timestamp := py.PFloat now |} ] in
  let new_ranges := py.sort start new_ranges in
  foldl coalesce_step [] new_ranges.

(** The body shared by the two tracking entry points, once their guards
    have passed. *)
Definition track (t : TextTracker) (text_content : string) (pos : position)
  (text : string) (src : string) (now : py.float) : TextTracker :=
  let start_idx := _pos_to_index text_content pos in
  let end_idx := start_idx + py.str_len text in
  {| text_widget := text_widget t;
     input_ranges :=
       _update_ranges (py.str_len text_content) (input_ranges t)
                      start_idx end_idx src now |}.

Definition track_manual_input (t : TextTracker) (pos : position)
  (character : string) (now : py.float) : TextTracker :=
  match text_widget t with
  | None => t
  | Some text_content => track t text_content pos character "manual" now
  end.

Definition track_paste_input (t : TextTracker) (pos : position)
  (content : string) (now : py.float) : TextTracker :=
  match text_widget t with
  | None => t
  | Some text_content =>
      if String.eqb content "" then t
      else track t text_content pos content "pasted" now
  end.

(** What happens to a tracker over time: the host edits the widget, or
    reports a keystroke or a paste. *)
Inductive event :=
| HostEdit (content : string)
| TrackManual (pos : position) (character : string) (now : py.float)
| TrackPaste (pos : position) (content : string) (now : py.float).

Definition step (t : TextTracker) (e : event) : TextTracker :=
  match e with
  | HostEdit content =>
      match text_widget t with
      | Some _ => set_text_widget t content
      | None => t
      end
  | TrackManual pos character now => track_manual_input t pos character now
  | TrackPaste pos content now => track_paste_input t pos content now
  end.

Definition run (t : TextTracker) (events : list event) : TextTracker :=
  foldl step t events.

(** The text an event records; [None] for a host edit. *)
Definition inserted_text (e : event) : option string :=
  match e with
  | HostEdit _ => None
  | TrackManual _ character _ => Some character
  | TrackPaste _ content _ => Some content
  end.

End text_tracker.

(** ** The json library

    [json.dumps(v, separators=(',', ':'), ensure_ascii=False)] and
    [json.loads], on the values of [py.val]. The reader covers objects,
    arrays, strings with their escapes (a [\u] escape up to [\u007f]),
    numbers and the three literals; [None] is [JSONDecodeError]. *)

Module json.
Import py.

Definition dquote : ascii := "034"%char.
Definition backslash : ascii := "092"%char.

(** *** Writing *)

Definition dumps_uint (d : Decimal.uint) : string := NilEmpty.string_of_uint d.
Definition dumps_sint (i : Decimal.signed_int) : string :=
  NilEmpty.string_of_int i.

Definition dumps_frac (f : Decimal.uint) : string :=
  match f with
  | Decimal.Nil => ""
  | d => String "." (dumps_uint d)
  end.

Definition dumps_exp (e : option Decimal.signed_int) : string :=
  match e with
  | None => ""
  | Some (Decimal.Pos d) => "e+" +:+ dumps_uint d
  | Some (Decimal.Neg d) => "e-" +:+ dumps_uint d
  end.

Definition dumps_float (f : float) : string :=
  dumps_sint (f_int f) +:+ dumps_frac (f_frac f) +:+ dumps_exp (f_exp f).

Definition hex_digit (n : nat) : ascii :=
  nth n ["0"; "1"; "2"; "3"; "4"; "5"; "6"; "7"; "8"; "9";
         "a"; "b"; "c"; "d"; "e"; "f"]%char "0"%char.

(** The escape table of the encoder: the quote, the backslash, the five
    named control characters, and [\u00xx] for the other characters below
    the space. *)
Definition escape_char (c : ascii) : string :=
  if Ascii.eqb c dquote then String backslash (String dquote "")
  else if Ascii.eqb c backslash then String backslash (String backslash "")
  else if Ascii.eqb c "008" then String backslash "b"
  else if Ascii.eqb c "012" then String backslash "f"
  else if Ascii.eqb c "010" then String backslash "n"
  else if Ascii.eqb c "013" then String backslash "r"
  else if Ascii.eqb c "009" then String backslash "t"
  else if (nat_of_ascii c <? 32)%nat then
    String backslash
      (String "u" (String "0" (String "0"
         (String (hex_digit (nat_of_ascii c / 16))
            (String (hex_digit (nat_of_ascii c mod 16)) "")))))
  else String c "".

Fixpoint escape (s : string) : string :=
  match s with
  | EmptyString => ""
  | String c s' => escape_char c +:+ escape s'
  end.

Definition dumps_str (s : string) : string :=
  String dquote (escape s +:+ String dquote "").

(** [sep.join(l)] *)
Fixpoint join (sep : string) (l : list string) : string :=
  match l with
  | [] => ""
  | [x] => x
  | x :: l' => x +:+ sep +:+ join sep l'
  end.

Fixpoint dumps (v : val) : string :=
  match v with
  | PNone => "null"
  | PBool true => "true"
  | PBool false => "false"
  | PInt z => dumps_sint (Z.to_int z)
  | PFloat f => dumps_float f
  | PStr s => dumps_str s
  | PList l => "[" +:+ join "," (map dumps l) +:+ "]"
  | PDict d =>
      "{" +:+ join "," (map (fun '(k, x) => dumps_str k +:+ ":" +:+ dumps x) d)
      +:+ "}"
  end.

(** The digits of a signed number. *)
Definition digits (i : Decimal.signed_int) : Decimal.uint :=
  match i with Decimal.Pos d | Decimal.Neg d => d end.

(** An integer part is [0] or starts with a digit that is not [0]. *)
Definition canonical (d : Decimal.uint) : bool :=
  match d with
  | Decimal.Nil => false
  | Decimal.D0 Decimal.Nil => true
  | Decimal.D0 _ => false
  | _ => true
  end.

(** A float literal as [repr] prints one: a canonical integer part, a
    fraction or an exponent, and digits in the exponent. *)
Definition float_literal (f : float) : bool :=
  canonical (digits (f_int f))
  && match f_frac f, f_exp f with
     | Decimal.Nil, None => false
     | _, None => true
     | _, Some e => match digits e with Decimal.Nil => false | _ => true end
     end.

(** The values as Python has them: every float in them is a float
    literal and every dictionary has each key once. These are the values
    whose text reads back. *)
Fixpoint jsonable (v : val) : bool :=
  match v with
  | PFloat f => float_literal f
  | PList l => forallb jsonable l
  | PDict d =>
      bool_decide (NoDup (map fst d)) && forallb (fun '(_, x) => jsonable x) d
  | _ => true
  end.

(** *** Reading *)

(** White space between tokens: space, tab, line feed, carriage return. *)
Definition is_ws (c : ascii) : bool :=
  Ascii.eqb c " " || Ascii.eqb c "009" || Ascii.eqb c "010"
  || Ascii.eqb c "013".

Fixpoint skip_ws (s : string) : string :=
  match s with
  | String c s' => if is_ws c then skip_ws s' else s
  | EmptyString => EmptyString
  end.

Definition digit_of (c : ascii) : option (Decimal.uint -> Decimal.uint) :=
  if Ascii.eqb c "0" then Some Decimal.D0
  else if Ascii.eqb c "1" then Some Decimal.D1
  else if Ascii.eqb c "2" then Some Decimal.D2
  else if Ascii.eqb c "3" then Some Decimal.D3
  else if Ascii.eqb c "4" then Some Decimal.D4
  else if Ascii.eqb c "5" then Some Decimal.D5
  else if Ascii.eqb c "6" then Some Decimal.D6
  else if Ascii.eqb c "7" then Some Decimal.D7
  else if Ascii.eqb c "8" then Some Decimal.D8
  else if Ascii.eqb c "9" then Some Decimal.D9
  else None.

(** The longest run of digits at the head of [s], and what follows it. *)
Fixpoint scan_digits (s : string) : Decimal.uint * string :=
  match s with
  | String c s' =>
      match digit_of c with
      | Some D => let (d, r) := scan_digits s' in (D d, r)
      | None => (Decimal.Nil, s)
      end
  | EmptyString => (Decimal.Nil, s)
  end.

Definition scan_exponent (s : string)
  : option (option Decimal.signed_int * string) :=
  match s with
  | String c s' =>
      if Ascii.eqb c "e" || Ascii.eqb c "E" then
        let '(neg, s'') :=
          match s' with
          | String c' t =>
              if Ascii.eqb c' "-" then (true, t)
              else if Ascii.eqb c' "+" then (false, t)
              else (false, s')
          | EmptyString => (false, s')
          end in
        let (d, r) := scan_digits s'' in
        match d with
        | Decimal.Nil => None
        | _ => Some (Some (if neg then Decimal.Neg d else Decimal.Pos d), r)
        end
      else Some (None, s)
  | EmptyString => Some (None, s)
  end.

(** A number: an optional minus sign, an integer part, then an optional
    fraction (a point and digits) and an optional exponent ([e] or [E], a
    sign, digits). It is an [int] when it has neither fraction nor
    exponent. [scan_magnitude] reads what follows the sign. *)
Definition scan_magnitude (neg : bool) (s1 : string) : option (val * string) :=
  let (d, s2) := scan_digits s1 in
  if negb (canonical d) then None
  else
    let i := if neg then Decimal.Neg d else Decimal.Pos d in
    let frac :=
      match s2 with
      | String c s' =>
          if Ascii.eqb c "." then
            let (f, r) := scan_digits s' in
            match f with
            | Decimal.Nil => None
            | _ => Some (f, r)
            end
          else Some (Decimal.Nil, s2)
      | EmptyString => Some (Decimal.Nil, s2)
      end in
    match frac with
    | None => None
    | Some (f, s3) =>
        match scan_exponent s3 with
        | None => None
        | Some (e, s4) =>
            match f, e with
            | Decimal.Nil, None => Some (PInt (Z.of_int i), s4)
            | _, _ => Some (PFloat {| f_int := i; f_frac := f; f_exp := e |}, s4)
            end
        end
    end.

Definition scan_number (s : string) : option (val * string) :=
  match s with
  | String c s' =>
      if Ascii.eqb c "-" then scan_magnitude true s' else scan_magnitude false s
  | EmptyString => None
  end.

Definition hex_value (c : ascii) : option nat :=
  let n := nat_of_ascii c in
  if (48 <=? n)%nat && (n <=? 57)%nat then Some (n - 48)%nat
  else if (97 <=? n)%nat && (n <=? 102)%nat then Some (n - 87)%nat
  else if (65 <=? n)%nat && (n <=? 70)%nat then Some (n - 55)%nat
  else None.

(** The character of [\uh1h2h3h4], for a code below 128. *)
Definition unicode_escape (h1 h2 h3 h4 : ascii) : option ascii :=
  match hex_value h1, hex_value h2, hex_value h3, hex_value h4 with
  | Some 0%nat, Some 0%nat, Some a, Some b =>
      if (a <? 8)%nat then Some (ascii_of_nat (16 * a + b)) else None
  | _, _, _, _ => None
  end.

Definition unescape (e : ascii) : option ascii :=
  if Ascii.eqb e dquote then Some dquote
  else if Ascii.eqb e backslash then Some backslash
  else if Ascii.eqb e "/" then Some "/"%char
  else if Ascii.eqb e "b" then Some "008"%char
  else if Ascii.eqb e "f" then Some "012"%char
  else if Ascii.eqb e "n" then Some "010"%char
  else if Ascii.eqb e "r" then Some "013"%char
  else if Ascii.eqb e "t" then Some "009"%char
  else None.

Definition cons_char (c : ascii) (r : option (string * string))
  : option (string * string) :=
  match r with
  | Some (s, rest) => Some (String c s, rest)
  | None => None
  end.

(** The text of a string, read from behind its opening quote up to the
    closing one. *)
Fixpoint scan_string (s : string) : option (string * string) :=
  match s with
  | EmptyString => None
  | String c s' =>
      if Ascii.eqb c dquote then Some ("", s')
      else if Ascii.eqb c backslash then
        match s' with
        | String e s'' =>
            if Ascii.eqb e "u" then
              match s'' with
              | String h1 (String h2 (String h3 (String h4 s4))) =>
                  match unicode_escape h1 h2 h3 h4 with
                  | Some c' => cons_char c' (scan_string s4)
                  | None => None
                  end
              | _ => None
              end
            else
              match unescape e with
              | Some c' => cons_char c' (scan_string s'')
              | None => None
              end
        | EmptyString => None
        end
      else if (nat_of_ascii c <? 32)%nat then None
      else cons_char c (scan_string s')
  end.

(** [s] behind the expected text [lit], if it starts with it. *)
Fixpoint expect (lit s : string) : option string :=
  match lit, s with
  | EmptyString, _ => Some s
  | String a lit', String b s' => if Ascii.eqb a b then expect lit' s' else None
  | String _ _, EmptyString => None
  end.

(** A dictionary from the pairs of an object, in reading order: a repeated
    key keeps its first place and takes the last value. *)
Definition dict_of_pairs (pairs : list (string * val)) : list (string * val) :=
  foldl (fun d kv => dict_set (fst kv) (snd kv) d) [] pairs.

Fixpoint parse_value (fuel : nat) (s : string) : option (val * string) :=
  match fuel with
  | O => None
  | S fuel =>
      match skip_ws s with
      | EmptyString => None
      | String c s' =>
          if Ascii.eqb c "{" then
            match skip_ws s' with
            | String c' r =>
                if Ascii.eqb c' "}" then Some (PDict [], r)
                else
                  match parse_members fuel s' with
                  | Some (pairs, r') => Some (PDict (dict_of_pairs pairs), r')
                  | None => None
                  end
            | EmptyString => None
            end
          else if Ascii.eqb c "[" then
            match skip_ws s' with
            | String c' r =>
                if Ascii.eqb c' "]" then Some (PList [], r)
                else
                  match parse_elements fuel s' with
                  | Some (l, r') => Some (PList l, r')
                  | None => None
                  end
            | EmptyString => None
            end
          else if Ascii.eqb c dquote then
            match scan_string s' with
            | Some (str, r) => Some (PStr str, r)
            | None => None
            end
          else if Ascii.eqb c "n" then
            match expect "ull" s' with Some r => Some (PNone, r) | None => None end
          else if Ascii.eqb c "t" then
            match expect "rue" s' with
            | Some r => Some (PBool true, r)
            | None => None
            end
          else if Ascii.eqb c "f" then
            match expect "alse" s' with
            | Some r => Some (PBool false, r)
            | None => None
            end
          else scan_number (String c s')
      end
  end
with parse_elements (fuel : nat) (s : string) : option (list val * string) :=
  match fuel with
  | O => None
  | S fuel =>
      match parse_value fuel s with
      | Some (v, r) =>
          match skip_ws r with
          | String c r' =>
              if Ascii.eqb c "," then
                match parse_elements fuel r' with
                | Some (l, r'') => Some (v :: l, r'')
                | None => None
                end
              else if Ascii.eqb c "]" then Some ([v], r')
              else None
          | EmptyString => None
          end
      | None => None
      end
  end
with parse_members (fuel : nat) (s : string)
  : option (list (string * val) * string) :=
  match fuel with
  | O => None
  | S fuel =>
      match skip_ws s with
      | String q s1 =>
          if Ascii.eqb q dquote then
            match scan_string s1 with
            | Some (k, s2) =>
                match skip_ws s2 with
                | String c s3 =>
                    if Ascii.eqb c ":" then
                      match parse_value fuel s3 with
                      | Some (v, r) =>
                          match skip_ws r with
                          | String c' r' =>
                              if Ascii.eqb c' "," then
                                match parse_members fuel r' with
                                | Some (l, r'') => Some ((k, v) :: l, r'')
                                | None => None
                                end
                              else if Ascii.eqb c' "}" then Some ([(k, v)], r')
                              else None
                          | EmptyString => None
                          end
                      | None => None
                      end
                    else None
                | EmptyString => None
                end
            | None => None
            end
          else None
      | EmptyString => None
      end
  end.

(** [json.loads]: one value, with nothing but white space behind it. *)
Definition loads (s : string) : option val :=
  match parse_value (S (String.length s)) s with
  | Some (v, r) =>
      match skip_ws r with
      | EmptyString => Some v
      | String _ _ => None
      end
  | None => None
  end.

End json.

(** Texts in examples are written with an apostrophe where the JSON text
    has a double quote; [sq] puts the quotes back. *)
Fixpoint sq (s : string) : string :=
  match s with
  | EmptyString => EmptyString
  | String c s' =>
      String (if Ascii.eqb c "'" then json.dquote else c) (sq s')
  end.

(** ** metadata_manager.py *)

(** A metadata dictionary [{'version': ..., 'ranges': [...]}] whose ranges
    are interval dictionaries with their four keys, as the tracker
    exports them. *)
Record metadata := Metadata {
  version : string;
  ranges : list range
}.

(** The same values as the codec sees them. *)
Definition range_to_py (r : range) : py.val :=
  py.PDict [("start", py.PInt (start r)); ("end", py.PInt (end_ r));
            ("source", py.PStr (source r)); ("timestamp", timestamp r)].

Definition metadata_to_py (m : metadata) : py.val :=
  py.PDict [("version", py.PStr (version m));
            ("ranges", py.PList (map range_to_py (ranges m)))].

Module metadata_manager.
Import py.

(** The manager, with its field [self.version]. *)
Record MetadataManager := Manager { self_version : string }.

(** [__init__] *)
Definition init : MetadataManager := {| self_version := "1.0" |}.

(** [serialize_metadata]; [created] is the clock's reading. *)
Definition serialize_metadata (self : MetadataManager) (metadata : val)
  (created : float) : string :=
  let serialized :=
    PDict [("ghostkey_metadata",
            PDict [("version", PStr (self_version self));
                   ("created", PFloat created);
                   ("data", metadata)])] in
  json.dumps serialized.

(** [json.loads] as a call that raises. *)
Definition json_loads (s : string) : result val :=
  match json.loads s with
  | Some v => Ok v
  | None => Raise JSONDecodeError
  end.

(** [deserialize_metadata]: the body of its [try], then the function with
    its two handlers, which both return [None]. *)
Definition deserialize_body (metadata_str : string) : result val :=
  if String.eqb (strip metadata_str) "" then Ok PNone
  else
    data ← json_loads metadata_str;
    in_envelope ← contains "ghostkey_metadata" data;
    if in_envelope : bool then
      envelope ← getitem data "ghostkey_metadata";
      getitem envelope "data"
    else
      has_ranges ← contains "ranges" data;
      if has_ranges : bool then Ok data else Ok PNone.

Definition deserialize_metadata (metadata_str : string) : result val :=
  try_except (deserialize_body metadata_str)
    (fun e => match e with
              | JSONDecodeError => Ok PNone
              | _ => Ok PNone
              end).

(** [validate_metadata]: the checks on one element of [ranges], in the
    order of the loop body, then the whole function. *)
Definition validate_range (range_info : val) : bool :=
  match range_info with
  | PDict d =>
      if negb (forallb (fun field => dict_has field d)
                 ["start"; "end"; "source"])
      then false
      else
        match dict_get "start" d, dict_get "end" d, dict_get "source" d with
        | Some s, Some e, Some src =>
            match as_int s, as_int e, src with
            | Some s, Some e, PStr src =>
                if (s <? 0) || (e <? 0) then false
                else if s >=? e then false
                else if negb (String.eqb src "manual" || String.eqb src "pasted")
                then false
                else true
            | _, _, _ => false
            end
        | _, _, _ => false
        end
  | _ => false
  end.

Definition validate_metadata (metadata : val) : bool :=
  match metadata with
  | PDict d =>
      match dict_get "ranges" d with
      | Some (PList ranges) => forallb validate_range ranges
      | _ => false
      end
  | _ => false
  end.

(** [merge_metadata]. [None] is an argument that is falsy or has no
    ['ranges']. The loop body first, then the function. *)
Definition merge_step (merged_ranges : list range) (range_info : range)
  : list range :=
  match last merged_ranges with
  | Some m =>
      if String.eqb (source m) (source range_info)
         && (end_ m >=? start range_info)
      then set_last merged_ranges
             (set_end m (Z.max (end_ m) (end_ range_info)))
      else merged_ranges ++ [range_info]
  | None => merged_ranges ++ [range_info]
  end.

Definition merge_metadata (self : MetadataManager)
  (metadata1 metadata2 : option metadata) : metadata :=
  let all_ranges := [] in
  let all_ranges :=
    match metadata1 with
    | Some m => all_ranges ++ ranges m
    | None => all_ranges
    end in
  let all_ranges :=
    match metadata2 with
    | Some m => all_ranges ++ ranges m
    | None => all_ranges
    end in
  let all_ranges := sort start all_ranges in
  let merged_ranges := foldl merge_step [] all_ranges in
  {| version := self_version self; ranges := merged_ranges |}.

(** [merge_metadata] on a store of objects. A list holds references to
    the interval dictionaries, which live in the store; [extend] copies
    references into the new list [all_ranges], which alone is sorted;
    [copy()] allocates, and an item assignment writes through a
    reference. A lookup that finds nothing ([None]) does not arise for
    references into the store. *)
Definition ref := nat.
Definition store := list range.

Definition key_start (h : store) (x : ref) : Z :=
  match h !! x with
  | Some r => start r
  | None => 0
  end.

Definition merge_step_store (st : option (store * list ref)) (range_info : ref)
  : option (store * list ref) :=
  '(h, merged_ranges) ← st;
  r ← h !! range_info;
  match last merged_ranges with
  | Some m =>
      mr ← h !! m;
      if String.eqb (source mr) (source r) && (end_ mr >=? start r)
      then Some (<[m := set_end mr (Z.max (end_ mr) (end_ r))]> h,
                 merged_ranges)
      else Some (h ++ [r], merged_ranges ++ [List.length h])
  | None => Some (h ++ [r], merged_ranges ++ [List.length h])
  end.

Definition merge_metadata_store (self : MetadataManager) (h : store)
  (ranges1 ranges2 : option (list ref))
  : option (store * (string * list ref)) :=
  let all_ranges := [] in
  let all_ranges :=
    match ranges1 with
    | Some l => all_ranges ++ l
    | None => all_ranges
    end in
  let all_ranges :=
    match ranges2 with
    | Some l => all_ranges ++ l
    | None => all_ranges
    end in
  let all_ranges := sort (key_start h) all_ranges in
  '(h', merged_ranges) ← foldl merge_step_store (Some (h, [])) all_ranges;
  Some (h', (self_version self, merged_ranges)).

(** [get_stats]. The three percentages are the exact quotients. *)
Record stats := Stats {
  total_chars : Z;
  typed_chars : Z;
  pasted_chars : Z;
  unknown_chars : Z;
  typed_percentage : Q;
  pasted_percentage : Q;
  unknown_percentage : Q;
  total_ranges : Z;
  typed_ranges : Z;
  pasted_ranges : Z
}.

(** The counters the loop updates. *)
Record counters := Counters {
  tracked_chars : Z;
  c_typed_chars : Z;
  c_typed_ranges : Z;
  c_pasted_chars : Z;
  c_pasted_ranges : Z
}.

Definition stats_step (c : counters) (range_info : range) : counters :=
  let length := end_ range_info - start range_info in
  let tracked := tracked_chars c + length in
  if String.eqb (source range_info) "manual" then
    {| tracked_chars := tracked;
       c_typed_chars := c_typed_chars c + length;
       c_typed_ranges := c_typed_ranges c + 1;
       c_pasted_chars := c_pasted_chars c;
       c_pasted_ranges := c_pasted_ranges c |}
  else if String.eqb (source range_info) "pasted" then
    {| tracked_chars := tracked;
       c_typed_chars := c_typed_chars c;
       c_typed_ranges := c_typed_ranges c;
       c_pasted_chars := c_pasted_chars c + length;
       c_pasted_ranges := c_pasted_ranges c + 1 |}
  else
    {| tracked_chars := tracked;
       c_typed_chars := c_typed_chars c;
       c_typed_ranges := c_typed_ranges c;
       c_pasted_chars := c_pasted_chars c;
       c_pasted_ranges := c_pasted_ranges c |}.

Definition percentage (chars total_length : Z) : Q :=
  (inject_Z chars / inject_Z total_length * 100)%Q.

Definition get_stats (metadata : option metadata) (total_length : Z) : stats :=
  match metadata with
  | None =>
      {| total_chars := total_length; typed_chars := 0; pasted_chars := 0;
         unknown_chars := total_length;
         typed_percentage := 0; pasted_percentage := 0;
         unknown_percentage := if total_length >? 0 then 100 else 0;
         total_ranges := 0; typed_ranges := 0; pasted_ranges := 0 |}
  | Some m =>
      let c := foldl stats_step (Counters 0 0 0 0 0) (ranges m) in
      let unknown := Z.max 0 (total_length - tracked_chars c) in
      let positive := total_length >? 0 in
      {| total_chars := total_length;
         typed_chars := c_typed_chars c;
         pasted_chars := c_pasted_chars c;
         unknown_chars := unknown;
         typed_percentage :=
           if positive then percentage (c_typed_chars c) total_length else 0;
         pasted_percentage :=
           if positive then percentage (c_pasted_chars c) total_length else 0;
         unknown_percentage :=
           if positive then percentage unknown total_length else 0;
         total_ranges := len (ranges m);
         typed_ranges := c_typed_ranges c;
         pasted_ranges := c_pasted_ranges c |}
  end.

End metadata_manager.

(** ** file_manager.py *)

Module file_manager.
Import py.

Definition metadata_start : string := "<!-- GHOSTKEY_METADATA_START -->".
Definition metadata_end : string := "<!-- GHOSTKEY_METADATA_END -->".

(** [_parse_lakra_content]: the text content and the metadata ([PNone]
    when there is none) of a [.lakra] file. *)
Definition _parse_lakra_content (file_content : string) : result (string * val) :=
  try_except
    (let metadata_start_idx := find file_content metadata_start 0 in
     if metadata_start_idx =? -1 then Ok (file_content, PNone)
     else
       let content :=
         rstrip (slice_to file_content (Z.to_nat metadata_start_idx)) in
       let metadata_start_idx := metadata_start_idx + str_len metadata_start in
       let metadata_end_idx :=
         find file_content metadata_end (Z.to_nat metadata_start_idx) in
       if metadata_end_idx =? -1 then Ok (content, PNone)
       else
         let metadata_json :=
           strip (slice file_content (Z.to_nat metadata_start_idx)
                    (Z.to_nat metadata_end_idx)) in
         metadata ← metadata_manager.deserialize_metadata metadata_json;
         Ok (content, metadata))
    (fun _ => Ok (file_content, PNone)).

(** [_create_lakra_content], for the metadata the tracker exports. *)
Definition _create_lakra_content (self : metadata_manager.MetadataManager)
  (content : string) (metadata : val) (created : float) : string :=
  if metadata_manager.validate_metadata metadata then
    content +:+ String "010" (String "010" metadata_start) +:+ String "010" ""
    +:+ metadata_manager.serialize_metadata self metadata created
    +:+ String "010" metadata_end
  else content.

(** [is_lakra_file], [get_base_format] and [suggest_lakra_filename]. *)
Definition is_lakra_file (file_path : string) : bool :=
  endswith file_path ".lakra".

Definition get_base_format (file_path : string) : option string :=
  if negb (is_lakra_file file_path) then None
  else
    let base_path := slice_to_z file_path (-6) in
    match String.index 0 "." base_path with
    | Some _ =>
        match last (split "." base_path) with
        | Some ext => Some (lower ext)
        | None => None
        end
    | None => Some "txt"
    end.

Definition suggest_lakra_filename (original_path : string) : string :=
  if is_lakra_file original_path then original_path
  else original_path +:+ ".lakra".

End file_manager.

(** ** text_tracker.py: queries, export and import, undo and redo *)

Module text_tracker_api.
Import py text_tracker.

(** [_pos_to_index] as a method: without a widget, reading the widget
    raises inside and the result is 0; an integer needs no widget. *)
Definition pos_to_index (t : TextTracker) (pos : position) : Z :=
  match text_widget t with
  | Some text_content => _pos_to_index text_content pos
  | None => match pos with Offset i => i | _ => 0 end
  end.

(** The loop of [get_source_at_position]: the source of the first range
    that holds [index]. *)
Definition source_at (input_ranges : list range) (index : Z) : option string :=
  match List.find (fun r => (start r <=? index) && (index <? end_ r))
                  input_ranges with
  | Some r => Some (source r)
  | None => None
  end.

Definition get_source_at_position (t : TextTracker) (pos : position)
  : option string :=
  source_at (input_ranges t) (pos_to_index t pos).

Definition get_ranges_in_area (t : TextTracker) (start_pos end_pos : position)
  : list range :=
  let start_idx := pos_to_index t start_pos in
  let end_idx := pos_to_index t end_pos in
  List.filter (fun r => (start r <? end_idx) && (end_ r >? start_idx))
              (input_ranges t).

(** [get_metadata]: the ranges, copied, under version ['1.1']. *)
Definition get_metadata (t : TextTracker) : metadata :=
  {| version := "1.1"; ranges := input_ranges t |}.

(** One element of ['ranges'] as [load_metadata] reads it, with its
    defaults; [now] is the clock's reading for this element. [None] for
    what the tracker's list of integer ranges cannot hold: an element
    that is no dictionary (Python raises there) or a value under
    ['start'], ['end'] or ['source'] of another type. *)
Definition load_range (now : float) (range_data : val) : option range :=
  match range_data with
  | PDict d =>
      match default (PInt 0) (dict_get "start" d),
            default (PInt 0) (dict_get "end" d),
            default (PStr "unknown") (dict_get "source" d) with
      | PInt s, PInt e, PStr src =>
          Some {| start := s; end_ := e; source := src;
                  timestamp := default (PFloat now) (dict_get "timestamp" d) |}
      | _, _, _ => None
      end
  | _ => None
  end.

Fixpoint load_ranges (clock : nat -> float) (i : nat) (l : list val)
  : option (list range) :=
  match l with
  | [] => Some []
  | range_data :: l' =>
      match load_range (clock i) range_data, load_ranges clock (S i) l' with
      | Some r, Some rs => Some (r :: rs)
      | _, _ => None
      end
  end.

(** [load_metadata]. The tracker is unchanged for metadata that is falsy
    or has no ['ranges']; otherwise the elements of ['ranges'] are read
    and sorted by start. [None] as for [load_range], and where Python
    raises (it then leaves the list half loaded). *)
Definition load_metadata (t : TextTracker) (metadata : val)
  (clock : nat -> float) : option TextTracker :=
  if negb (truthy metadata) then Some t
  else
    match contains "ranges" metadata with
    | Ok false => Some t
    | Ok true =>
        match getitem metadata "ranges" with
        | Ok ranges =>
            match iter ranges with
            | Some l =>
                match load_ranges clock 0 l with
                | Some rs =>
                    Some {| text_widget := text_widget t;
                            input_ranges := sort start rs |}
                | None => None
                end
            | None => None
            end
        | Raise _ => None
        end
    | Raise _ => None
    end.

(** [refresh_after_undo] and [restore_from_current_text]: the whole text
    becomes one range, typed after an undo, pasted after a redo. *)
Definition refresh_after_undo (t : TextTracker) (now : float) : TextTracker :=
  match text_widget t with
  | None => t
  | Some current_text =>
      {| text_widget := text_widget t;
         input_ranges :=
           if String.eqb current_text "" then []
           else [ {| start := 0; end_ := str_len current_text;
                     source := "manual"; timestamp := PFloat now |} ] |}
  end.

Definition restore_from_current_text (t : TextTracker) (now : float)
  : TextTracker :=
  match text_widget t with
  | None => t
  | Some current_text =>
      {| text_widget := text_widget t;
         input_ranges :=
           if String.eqb current_text "" then []
           else [ {| start := 0; end_ := str_len current_text;
                     source := "pasted"; timestamp := PFloat now |} ] |}
  end.

(** [_index_to_pos]: the Tk index [line.col] of a character offset, by its
    two numbers; [1.0] when there is no widget. *)
Definition _index_to_pos (t : TextTracker) (index : Z) : position :=
  match text_widget t with
  | None => TkIndex 1 0
  | Some text_content =>
      let lines :=
        if index >=? str_len text_content then split "010" text_content
        else split "010" (slice_to_z text_content index) in
      match last lines with
      | Some l => TkIndex (len lines) (str_len l)
      | None => TkIndex 1 0
      end
  end.

End text_tracker_api.

(** ** ui_components.py *)

Module ui_components.
Import py text_tracker text_tracker_api.

(** [find_hover_range]: the first range of the given source that holds
    the position. *)
Definition find_hover_range (t : TextTracker) (pos : position)
  (src : string) : option range :=
  let pos_index := pos_to_index t pos in
  List.find (fun r => (start r <=? pos_index) && (pos_index <? end_ r)
                      && String.eqb (source r) src)
            (input_ranges t).

End ui_components.

(** * Specification *)

(** ** Interval sets *)

(** [chain lo l]: the ranges of [l] are not empty, lie at or after [lo],
    and each one ends where the next starts or before. *)
Fixpoint chain (lo : Z) (l : list range) : Prop :=
  match l with
  | [] => True
  | r :: l' => lo <= start r /\ start r < end_ r /\ chain (end_ r) l'
  end.

(** [separated l]: sorted by start, no range empty, none reaching into
    the next. *)
Definition separated (l : list range) : Prop := exists lo, chain lo l.

(** Two ranges with no character in common. *)
Definition apart (r1 r2 : range) : Prop :=
  end_ r1 <= start r2 \/ end_ r2 <= start r1.

(** [scattered l]: non-empty ranges, any two of them apart, in any
    order. *)
Fixpoint scattered (l : list range) : Prop :=
  match l with
  | [] => True
  | r :: l' => start r < end_ r /\ Forall (apart r) l' /\ scattered l'
  end.

(** The order a sort by [key] establishes. *)
Definition key_le {A} (key : A -> Z) (x y : A) : Prop := key x <= key y.

(** A Provenance Set: ranges from offset 0 on, none empty, sorted, none
    reaching into the next, each typed or pasted. *)
Definition provenance_set (l : list range) : Prop :=
  chain 0 l
  /\ Forall (fun r => source r = "manual" \/ source r = "pasted") l.

(** ** Deletion reconciliation *)

(** What [_handle_deletions] keeps of one range. *)
Definition kept (current_length : Z) (r : range) : list range :=
  if start r >=? current_length then []
  else if Z.min (end_ r) current_length >? start r
       then [set_end r (Z.min (end_ r) current_length)]
       else [].



(** ** Merging *)

(** The coalescing pass as the design states it: going left to right, a
    range joins the previous output range when it has the same source and
    starts at or before that one's end, which then ends at the larger of
    the two ends; otherwise it opens a new output range. [coalesce_into
    prev l] is the output for [l] once [prev] is the last output range. *)
Fixpoint coalesce_into (prev : range) (l : list range) : list range :=
  match l with
  | [] => [prev]
  | current :: l' =>
      if String.eqb (source prev) (source current)
         && (start current <=? end_ prev)
      then coalesce_into (set_end prev (Z.max (end_ prev) (end_ current))) l'
      else prev :: coalesce_into current l'
  end.

Definition coalesce (l : list range) : list range :=
  match l with
  | [] => []
  | first :: l' => coalesce_into first l'
  end.

(** The merge of the design: concatenate, sort by [start], coalesce, and
    stamp with the merger's own version. *)
Definition merge_spec (own_version : string) (a b : metadata) : metadata :=
  {| version := own_version;
     ranges := coalesce (py.sort start (ranges a ++ ranges b)) |}.

(** [x] refers to the dictionary [r] in the store [h]. *)
Definition points_to (h : metadata_manager.store) (x : metadata_manager.ref)
  (r : range) : Prop :=
  h !! x = Some r.

(** ** Statistics *)

(** What the loop of [get_stats] counts: the characters of all ranges, and
    of those of one source. *)
Fixpoint length_sum (l : list range) : Z :=
  match l with
  | [] => 0
  | r :: l' => (end_ r - start r) + length_sum l'
  end.

Fixpoint length_sum_of (src : string) (l : list range) : Z :=
  match l with
  | [] => 0
  | r :: l' =>
      (if String.eqb (source r) src then end_ r - start r else 0)
      + length_sum_of src l'
  end.

(** ** Validation *)

(** An element of ['ranges'] as the validator wants it: a dictionary with
    integers under ['start'] and ['end'], neither negative, the first
    smaller, and ['manual'] or ['pasted'] under ['source']. *)
Definition structurally_valid (range_info : py.val) : Prop :=
  exists d s e src,
    range_info = py.PDict d
    /\ py.dict_get "start" d = Some (py.PInt s)
    /\ py.dict_get "end" d = Some (py.PInt e)
    /\ py.dict_get "source" d = Some (py.PStr src)
    /\ 0 <= s /\ 0 <= e /\ s < e
    /\ (src = "manual" \/ src = "pasted").

(** ** Texts *)


(** [s] does not go on with a digit. *)
Definition no_digit (s : string) : Prop :=
  match s with
  | String c _ => json.digit_of c = None
  | EmptyString => True
  end.

(** [s] can follow a number: it is empty or starts with none of the
    characters a number goes on with. *)
Definition number_end (s : string) : Prop :=
  match s with
  | String c _ =>
      json.digit_of c = None /\ Ascii.eqb c "." = false
      /\ Ascii.eqb c "e" = false /\ Ascii.eqb c "E" = false
  | EmptyString => True
  end.

(** [s] can follow a value inside an array or an object, or ends the
    text. *)
Definition value_end (s : string) : Prop :=
  match s with
  | String c _ => c = ","%char \/ c = "]"%char \/ c = "}"%char
  | EmptyString => True
  end.

(** The text of a value starts with a character that is neither white
    space nor a closing bracket. *)
Definition starts_value (s : string) : Prop :=
  match s with
  | String c _ =>
      json.is_ws c = false /\ Ascii.eqb c "]" = false
      /\ Ascii.eqb c "}" = false
  | EmptyString => False
  end.

(** The text of one item of a dictionary. *)
Definition dumps_member (kv : string * py.val) : string :=
  let '(k, x) := kv in json.dumps_str k +:+ ":" +:+ json.dumps x.

(** What [parse_value] is to do for one value: read it back from its
    text, whatever fuel is left beyond the text's length and whatever
    follows. *)
Definition reads_back (v : py.val) : Prop :=
  forall fuel rest,
    (String.length (json.dumps v) < fuel)%nat -> value_end rest ->
    json.parse_value fuel (json.dumps v +:+ rest) = Some (v, rest).

(** ** Example data *)

(** A clock reading: [1730000000.25]. *)
Definition noon : py.float :=
  {| py.f_int := Z.to_int 1730000000;
     py.f_frac := Decimal.D2 (Decimal.D5 Decimal.Nil);
     py.f_exp := None |}.

(** [hello] typed, [!] pasted. *)
Definition hello_set : metadata :=
  {| version := "1.1";
     ranges := [Range 0 5 "manual" (py.PFloat noon);
                Range 5 6 "pasted" (py.PFloat noon)] |}.


(** A store with two overlapping typed ranges, one per input list. *)
Definition two_copies : metadata_manager.store :=
  [Range 0 10 "manual" (py.PFloat noon); Range 4 12 "manual" (py.PFloat noon)].

(** ** Notions for the queries, the file format and the statistics *)

(** Some range of [l] with source [src] holds the character [index]. *)
Definition covered (l : list range) (src : string) (index : Z) : Prop :=
  Exists (fun r => source r = src /\ start r <= index < end_ r) l.

(** The ranges an argument of [merge_metadata] contributes: none when it
    is absent. *)
Definition given_ranges (m : option metadata) : list range :=
  match m with
  | Some m => ranges m
  | None => []
  end.

(** A list in which each range starts no later than the next and two
    consecutive ranges of one source leave a gap. *)
Fixpoint settled (l : list range) : Prop :=
  match l with
  | [] => True
  | x :: l' =>
      match l' with
      | [] => True
      | y :: _ =>
          start x <= start y /\ (source x <> source y \/ end_ x < start y)
      end
      /\ settled l'
  end.

(** An element of ['ranges'] that passes every check of the validator:
    as [structurally_valid], but a boolean passes for an integer. *)
Definition passes_validation (range_info : py.val) : Prop :=
  exists d vs ve src s e,
    range_info = py.PDict d
    /\ py.dict_get "start" d = Some vs /\ py.as_int vs = Some s
    /\ py.dict_get "end" d = Some ve /\ py.as_int ve = Some e
    /\ py.dict_get "source" d = Some (py.PStr src)
    /\ 0 <= s /\ s < e
    /\ (src = "manual" \/ src = "pasted").

(** A position whose column or offset is not negative. *)
Definition position_nonneg (pos : text_tracker.position) : Prop :=
  match pos with
  | text_tracker.TkIndex _ col => 0 <= col
  | text_tracker.BadIndex => True
  | text_tracker.Offset i => 0 <= i
  end.

(** An event as the editor sends it: at a position that is not negative,
    a keystroke with its character, and the clock's reading a float. *)
Definition well_formed_event (e : text_tracker.event) : Prop :=
  match e with
  | text_tracker.HostEdit _ => True
  | text_tracker.TrackManual pos character now =>
      position_nonneg pos /\ character <> ""
      /\ json.float_literal now = true
  | text_tracker.TrackPaste pos _ now =>
      position_nonneg pos /\ json.float_literal now = true
  end.

(** Ranges that can be saved: a Provenance Set whose time stamps the
    encoder writes. *)
Definition savable (l : list range) : Prop :=
  provenance_set l
  /\ Forall (fun r => json.jsonable (timestamp r) = true) l.

(** The characters of the lines before the last one, each with its line
    feed. *)
Fixpoint lines_length (lines : list string) : Z :=
  match lines with
  | [] => 0
  | l :: lines' => (py.str_len l + 1) + lines_length lines'
  end.



(** Two answers of the source query are the same. *)
Definition same_source (a b : option string) : bool :=
  match a, b with
  | Some x, Some y => String.eqb x y
  | None, None => true
  | _, _ => false
  end.

(** The number of characters from [lo] up to [hi], [hi] excluded, for
    which the source query answers [src]; [None] is no source. *)
Definition characters_with (l : list range) (src : option string)
  (lo hi : Z) : Z :=
  py.len (List.filter
            (fun index =>
               same_source (text_tracker_api.source_at l index) src)
            (seqZ lo (hi - lo))).

(** The characters of the ranges whose source is [src]. *)
Fixpoint weight (src : option string) (l : list range) : Z :=
  match l with
  | [] => 0
  | r :: l' =>
      (if same_source (Some (source r)) src then end_ r - start r else 0)
      + weight src l'
  end.

(** No range continues its left neighbour: two consecutive ranges differ
    in source or do not touch. *)
Fixpoint coalesced (l : list range) : Prop :=
  match l with
  | [] => True
  | x :: l' =>
      match l' with
      | [] => True
      | y :: _ => source x <> source y \/ end_ x <> start y
      end
      /\ coalesced l'
  end.

(** Every character of [s] passes the test [p]. *)
Fixpoint all_chars (p : ascii -> bool) (s : string) : bool :=
  match s with
  | EmptyString => true
  | String c s' => p c && all_chars p s'
  end.

(** A character that is no control character. *)
Definition printable (c : ascii) : bool := (32 <=? nat_of_ascii c)%nat.

(** * Proofs *)

(** ** Lists built by loops *)

Section loops.
Context {A B : Type}.

(** A loop that appends what [f] gives for each element builds the
    concatenation. *)
Lemma foldl_append (step : list B -> A -> list B) (f : A -> list B) :
  (forall acc x, step acc x = acc ++ f x) ->
  forall l acc, foldl step acc l = acc ++ flat_map f l.
Proof.
  intros Hstep l. induction l as [|x l IH]; intros acc; simpl.
  - by rewrite app_nil_r.
  - rewrite Hstep, IH. by rewrite <- app_assoc.
Qed.

Lemma set_last_snoc (l : list A) (x y : A) : py.set_last (l ++ [x]) y = l ++ [y].
Proof.
  unfold py.set_last. rewrite length_app. simpl.
  replace (Nat.pred (length l + 1)) with (length l + 0)%nat by lia.
  by rewrite insert_app_r.
Qed.

End loops.

(** ** The stable sort *)

Section sorting.
Context {A : Type} (key : A -> Z).

Lemma insert_by_Permutation x l : Permutation (py.insert_by key x l) (x :: l).
Proof.
  induction l as [|y l IH]; simpl; [done|].
  destruct (key x <=? key y); [done|].
  rewrite IH. apply perm_swap.
Qed.

Lemma sort_Permutation l : Permutation (py.sort key l) l.
Proof.
  induction l as [|x l IH]; simpl; [done|].
  unfold py.sort in *. simpl. rewrite insert_by_Permutation. by constructor.
Qed.

Lemma insert_by_sorted x l :
  StronglySorted (key_le key) l -> StronglySorted (key_le key) (py.insert_by key x l).
Proof.
  induction 1 as [|y l Hl IH Hy]; simpl.
  - repeat constructor.
  - destruct (Z.leb_spec (key x) (key y)).
    + constructor; [by constructor|].
      constructor; [done|].
      eapply Forall_impl; [exact Hy|]. unfold key_le. intros; lia.
    + constructor; [done|].
      rewrite insert_by_Permutation. constructor; [|done].
      unfold key_le; lia.
Qed.

Lemma sort_sorted l : StronglySorted (key_le key) (py.sort key l).
Proof.
  induction l as [|x l IH]; simpl; [constructor|].
  by apply insert_by_sorted.
Qed.

(** The sort is stable: the elements of one key keep their order. *)
Lemma insert_by_stable k x l :
  List.filter (fun y => key y =? k) (py.insert_by key x l)
  = List.filter (fun y => key y =? k) (x :: l).
Proof.
  induction l as [|y l IH]; [done|]. cbn [py.insert_by].
  destruct (Z.leb_spec (key x) (key y)); [done|].
  cbn [List.filter] in *. rewrite IH.
  destruct (Z.eqb_spec (key x) k), (Z.eqb_spec (key y) k); try done. lia.
Qed.

Lemma sort_stable k l :
  List.filter (fun y => key y =? k) (py.sort key l)
  = List.filter (fun y => key y =? k) l.
Proof.
  induction l as [|x l IH]; [done|].
  unfold py.sort in *. cbn [foldr]. rewrite insert_by_stable.
  cbn [List.filter]. by rewrite IH.
Qed.

End sorting.

(** ** Interval sets *)

Lemma chain_weaken lo lo' l : lo <= lo' -> chain lo' l -> chain lo l.
Proof. destruct l; simpl; [done|]. intros ? (? & ? & ?). repeat split; [lia|done|done]. Qed.

Lemma chain_after lo l : chain lo l -> Forall (fun r => lo <= start r /\ start r < end_ r) l.
Proof.
  revert lo. induction l as [|r l IH]; intros lo; simpl; [constructor|].
  intros (? & ? & Hc). constructor; [done|].
  eapply Forall_impl; [apply (IH _ Hc)|]. simpl. intros; lia.
Qed.

Lemma chain_scattered lo l : chain lo l -> scattered l.
Proof.
  revert lo. induction l as [|r l IH]; intros lo; simpl; [done|].
  intros (? & ? & Hc). split; [done|]. split; [|by eapply IH].
  eapply Forall_impl; [apply (chain_after _ _ Hc)|].
  unfold apart. simpl. intros; lia.
Qed.

Lemma chain_app lo l1 l2 :
  chain lo (l1 ++ l2) <->
  chain lo l1 /\ chain (match last l1 with Some r => end_ r | None => lo end) l2.
Proof.
  revert lo. induction l1 as [|r l1 IH]; intros lo; [simpl; tauto|].
  change ((r :: l1) ++ l2) with (r :: (l1 ++ l2)).
  cbn [chain]. rewrite IH. destruct l1 as [|r' l1]; [simpl; tauto|].
  rewrite (last_cons_cons r r' l1).
  destruct (last (r' :: l1)) eqn:Hl; [tauto|].
  by apply last_None in Hl.
Qed.

Lemma scattered_app l1 l2 :
  scattered (l1 ++ l2) <->
  scattered l1 /\ scattered l2 /\ Forall (fun r1 => Forall (apart r1) l2) l1.
Proof.
  induction l1 as [|r l1 IH]; simpl.
  - split; [intros; repeat split; [done|constructor]|tauto].
  - rewrite IH, Forall_app, Forall_cons. tauto.
Qed.

Lemma apart_sym r1 r2 : apart r1 r2 -> apart r2 r1.
Proof. unfold apart; tauto. Qed.

Lemma scattered_Permutation l l' : Permutation l l' -> scattered l -> scattered l'.
Proof.
  induction 1 as [|x l l' Hp IH|x y l|l l' l'' _ IH1 _ IH2]; simpl.
  - done.
  - intros (? & Hx & ?). repeat split; [done| |tauto]. by rewrite <- Hp.
  - rewrite !Forall_cons. intros (? & [? ?] & ? & ? & ?).
    repeat split; try done. by apply apart_sym.
  - tauto.
Qed.

(** A sorted scattered list is a chain. *)
Lemma sorted_scattered_chain l :
  StronglySorted (key_le start) l -> scattered l ->
  chain (match l with r :: _ => start r | [] => 0 end) l.
Proof.
  induction 1 as [|r l Hs IH Hr]; simpl; [done|].
  intros (Hne & Hap & Hsc). repeat split; [lia|done|].
  specialize (IH Hsc). destruct l as [|r' l]; [done|].
  eapply chain_weaken; [|exact IH].
  apply Forall_cons in Hr as [Hr _]. apply Forall_cons in Hap as [Hap _].
  simpl in Hsc. unfold key_le, apart in *. lia.
Qed.

(** In a chain every range ends before every later one starts. *)
Lemma chain_lookup lo l i j ri rj :
  chain lo l -> l !! i = Some ri -> l !! j = Some rj -> (i < j)%nat ->
  start ri <= start rj /\ end_ ri <= start rj.
Proof.
  revert lo i j. induction l as [|r l IH]; intros lo i j Hc Hi Hj Hij; [done|].
  destruct Hc as (? & ? & Hc).
  destruct j as [|j]; [lia|]. simpl in Hj.
  destruct i as [|i]; simpl in Hi.
  - injection Hi as <-.
    pose proof (chain_after _ _ Hc) as Hall.
    rewrite Forall_lookup in Hall. specialize (Hall _ _ Hj). simpl in Hall. lia.
  - eapply IH; eauto. lia.
Qed.

Lemma scattered_flat_map (f : range -> list range) l :
  (forall r, start r < end_ r -> scattered (f r)) ->
  (forall r r' a b, apart r r' -> start r < end_ r -> start r' < end_ r' ->
                    a ∈ f r -> b ∈ f r' -> apart a b) ->
  scattered l -> scattered (flat_map f l).
Proof.
  intros Hone Htwo. induction l as [|r l IH]; simpl; [done|].
  intros (Hr & Hap & Hsc). apply scattered_app.
  split; [by apply Hone|]. split; [by apply IH|].
  apply Forall_forall. intros a Ha. apply Forall_forall. intros b Hb.
  apply list_elem_of_In, in_flat_map in Hb as (r' & Hr' & Hb).
  apply list_elem_of_In in Hr', Hb.
  rewrite Forall_forall in Hap.
  assert (Forall (fun x => start x < end_ x) l) as Hne.
  { clear -Hsc. induction l; simpl in *; [constructor|]. constructor; tauto. }
  rewrite Forall_forall in Hne.
  eapply Htwo; eauto.
Qed.

(** ** text_tracker.py: the interval set under edits *)

Section tracker.
Import text_tracker.

Lemma handle_deletions_flat_map current_length l :
  _handle_deletions current_length l = flat_map (kept current_length) l.
Proof.
  unfold _handle_deletions.
  rewrite (foldl_append _ (kept current_length)); [done|].
  intros acc r. unfold kept. simpl.
  repeat case_match; by rewrite ?app_nil_r.
Qed.

Lemma handle_deletions_chain current_length lo l :
  chain lo l -> chain lo (_handle_deletions current_length l).
Proof.
  rewrite handle_deletions_flat_map. revert lo.
  induction l as [|r l IH]; intros lo; simpl; [done|].
  intros (? & ? & Hc). unfold kept.
  destruct (Z.geb_spec (start r) current_length); simpl.
  - apply IH. eapply chain_weaken; [|exact Hc]. lia.
  - destruct (Z.gtb_spec (Z.min (end_ r) current_length) (start r)); simpl.
    + repeat split; [lia..|]. apply IH.
      eapply chain_weaken; [|exact Hc]. lia.
    + lia.
Qed.

Lemma shift_step_append start_idx end_idx acc r :
  shift_step start_idx end_idx acc r
  = acc ++ shift_step start_idx end_idx [] r.
Proof.
  unfold shift_step. repeat case_match; simpl; by rewrite <- ?app_assoc, ?app_nil_r.
Qed.

Lemma shift_step_cases start_idx end_idx r a :
  a ∈ shift_step start_idx end_idx [] r ->
  (end_ r <= start_idx /\ a = r)
  \/ (start_idx <= start r /\ start_idx < end_ r /\
      start a = start r + (end_idx - start_idx) /\
      end_ a = end_ r + (end_idx - start_idx))
  \/ (start r < start_idx < end_ r /\ start a = start r /\ end_ a = start_idx)
  \/ (start r < start_idx < end_ r /\ start a = end_idx /\
      end_ a = end_ r + (end_idx - start_idx)).
Proof.
  unfold shift_step.
  destruct (Z.leb_spec (end_ r) start_idx); simpl.
  { rewrite list_elem_of_singleton. intros ->. by left. }
  destruct (Z.geb_spec (start r) start_idx); simpl.
  { rewrite list_elem_of_singleton. intros ->. right; left. simpl. lia. }
  destruct (Z.ltb_spec (start r) start_idx); [|lia].
  destruct (Z.gtb_spec (end_ r) start_idx); [|lia]. simpl.
  rewrite elem_of_cons, list_elem_of_singleton. intros [-> | ->]; simpl.
  - right; right; left. lia.
  - right; right; right. lia.
Qed.

Lemma shift_step_scattered start_idx end_idx r :
  start_idx < end_idx -> start r < end_ r ->
  scattered (shift_step start_idx end_idx [] r).
Proof.
  intros Hlen Hr. unfold shift_step.
  repeat case_match; simpl; repeat split; try lia;
    repeat constructor; unfold apart; simpl; lia.
Qed.

(** The ranges after the first loop and the new range are scattered. *)
Lemma shifted_scattered start_idx end_idx src now l :
  start_idx < end_idx -> scattered l ->
  scattered (foldl (shift_step start_idx end_idx) [] l
             ++ [ {| start := start_idx; end_ := end_idx; source := src;
                     timestamp := py.PFloat now |} ]).
Proof.
  intros Hlen Hsc.
  rewrite (foldl_append _ (shift_step start_idx end_idx []))
    by apply shift_step_append.
  simpl. apply scattered_app. split; [|split].
  - apply scattered_flat_map; [|clear -Hlen|done].
    + intros. by apply shift_step_scattered.
    + intros r r' a b Hap Hr Hr' Ha Hb.
      apply shift_step_cases in Ha, Hb. unfold apart in *.
      destruct Ha as [[? ->]|[?|[?|?]]], Hb as [[? ->]|[?|[?|?]]]; lia.
  - simpl. repeat split; [done|constructor].
  - apply Forall_forall. intros a Ha.
    apply list_elem_of_In, in_flat_map in Ha as (r & Hr & Ha).
    apply list_elem_of_In in Ha. apply shift_step_cases in Ha.
    constructor; [|constructor]. unfold apart. simpl.
    destruct Ha as [[? ->]|[?|[?|?]]]; lia.
Qed.

(** The last loop keeps a chain a chain. *)
Lemma coalesce_chain lo l acc :
  chain lo acc ->
  chain (match last acc with Some m => end_ m | None => lo end) l ->
  chain lo (foldl coalesce_step acc l).
Proof.
  revert acc. induction l as [|r l IH]; intros acc Hacc Hl; simpl; [done|].
  destruct Hl as (Hlo & Hr & Hl). apply IH.
  - unfold coalesce_step. destruct (last acc) as [m|] eqn:Hlast.
    + apply last_Some in Hlast as [acc' ->].
      destruct (String.eqb (source m) (source r) && (end_ m =? start r)).
      * rewrite set_last_snoc. apply chain_app in Hacc as [Hacc' Hm].
        apply chain_app. split; [done|]. simpl in *. lia.
      * apply chain_app. rewrite last_snoc. split; [done|]. simpl. lia.
    + apply last_None in Hlast as ->. simpl. lia.
  - unfold coalesce_step. destruct (last acc) as [m|] eqn:Hlast.
    + apply last_Some in Hlast as [acc' ->].
      destruct (String.eqb (source m) (source r) && (end_ m =? start r)).
      * by rewrite set_last_snoc, last_snoc.
      * by rewrite last_snoc.
    + by rewrite last_snoc.
Qed.

Lemma update_ranges_separated current_length l start_idx end_idx src now :
  start_idx < end_idx -> separated l ->
  separated (_update_ranges current_length l start_idx end_idx src now).
Proof.
  intros Hlen [lo Hl]. unfold _update_ranges.
  set (shifted := _ ++ [_]).
  assert (scattered shifted) as Hsc.
  { apply shifted_scattered; [done|].
    eapply chain_scattered, handle_deletions_chain, Hl. }
  eapply scattered_Permutation in Hsc;
    [|symmetry; apply (sort_Permutation start)].
  pose proof (sorted_scattered_chain _ (sort_sorted start shifted) Hsc) as Hc.
  eexists. apply coalesce_chain; [done|exact Hc].
Qed.

Lemma step_separated t e :
  (forall text, inserted_text e = Some text -> text <> "") ->
  separated (input_ranges t) -> separated (input_ranges (step t e)).
Proof.
  intros He Ht.
  assert (forall text, text <> "" -> 0 < py.str_len text) as Hpos.
  { intros [|c s] ?; [done|]. unfold py.str_len. simpl. lia. }
  destruct e as [content|pos character now|pos content now]; simpl.
  - by destruct (text_widget t).
  - unfold track_manual_input. destruct (text_widget t) as [text_content|]; [|done].
    simpl. apply update_ranges_separated; [|done].
    specialize (Hpos character (He _ eq_refl)). lia.
  - unfold track_paste_input. destruct (text_widget t) as [text_content|]; [|done].
    destruct (String.eqb content ""); [done|].
    simpl. apply update_ranges_separated; [|done].
    specialize (Hpos content (He _ eq_refl)). lia.
Qed.

Lemma run_separated events t :
  (forall e text, e ∈ events -> inserted_text e = Some text -> text <> "") ->
  separated (input_ranges t) -> separated (input_ranges (run t events)).
Proof.
  revert t. induction events as [|e events IH]; intros t He Ht; [done|].
  simpl. apply IH.
  - intros e' text Hin. apply He. by right.
  - apply step_separated; [|done]. intros text. apply He. by left.
Qed.

(** C1. Starting from an empty set, after any sequence of host edits,
    keystrokes and pastes that each record at least one character, the
    tracker's list is sorted by [start] and no range reaches into a later
    one: of two ranges, the earlier one starts first and ends at or before
    the start of the later one (so in particular for consecutive ones). *)
Theorem record_insertion_disjoint_sorted
  (t : TextTracker) (events : list event) :
  input_ranges t = [] ->
  (forall e text, e ∈ events -> inserted_text e = Some text -> text <> "") ->
  forall i j ri rj,
    input_ranges (run t events) !! i = Some ri ->
    input_ranges (run t events) !! j = Some rj ->
    (i < j)%nat ->
    start ri <= start rj /\ end_ ri <= start rj.
Proof.
  intros Hempty He i j ri rj Hi Hj Hij.
  destruct (run_separated events t He) as [lo Hc].
  { exists 0. by rewrite Hempty. }
  eapply chain_lookup; eauto.
Qed.

Lemma record_insertion_disjoint_sorted_witness :
  let t := set_text_widget init "hello!" in
  let events := [TrackManual (Offset 0) "hello" noon;
                 TrackPaste (Offset 5) "!" noon] in
  let typed := Range 0 5 "manual" (py.PFloat noon) in
  let pasted := Range 5 6 "pasted" (py.PFloat noon) in
  input_ranges (run t events) = [typed; pasted]
  /\ start typed <= start pasted /\ end_ typed <= start pasted.
Proof.
  split; [reflexivity|].
  apply (record_insertion_disjoint_sorted
           (set_text_widget init "hello!")
           [TrackManual (Offset 0) "hello" noon; TrackPaste (Offset 5) "!" noon]
           eq_refl) with (i := 0%nat) (j := 1%nat)
           (ri := Range 0 5 "manual" (py.PFloat noon))
           (rj := Range 5 6 "pasted" (py.PFloat noon)).
  - intros e text Hin.
    apply elem_of_cons in Hin as [->|Hin];
      [|apply elem_of_cons in Hin as [->|Hin]; [|by apply elem_of_nil in Hin]];
      simpl; intros [= <-]; discriminate.
  - reflexivity.
  - reflexivity.
  - lia.
Defined.

(** The two keystroke scenarios of the design notes: typing [hello] then
    [world] gives one range. *)
Example typed_twice_coalesces :
  input_ranges (run (set_text_widget init "helloworld")
                  [TrackManual (Offset 0) "hello" noon;
                   TrackManual (Offset 5) "world" noon])
  = [Range 0 10 "manual" (py.PFloat noon)].
Proof. reflexivity. Qed.

(** *** Deletion reconciliation *)

Lemma set_end_same r : set_end r (end_ r) = r.
Proof. by destruct r. Qed.




(** *** Requests the tracker does and does not reject *)

Lemma update_ranges_empty current_length start_idx end_idx src now :
  _update_ranges current_length [] start_idx end_idx src now
  = [Range start_idx end_idx src (py.PFloat now)].
Proof. reflexivity. Qed.

(** C2, as the code has it. An empty paste leaves the tracker as it is,
    and so does any request while no widget is attached. An offset is not
    checked: on an empty set, a keystroke or paste of at least one
    character at offset [p], negative or not, records the range from [p]
    to [p] plus the length. *)
Theorem track_rejects_empty_paste_only
  (t : TextTracker) (pos : position) (text : string) (now : py.float) :
  track_paste_input t pos "" now = t
  /\ (text_widget t = None ->
      track_manual_input t pos text now = t
      /\ track_paste_input t pos text now = t)
  /\ (forall text_content,
        text_widget t = Some text_content -> input_ranges t = [] ->
        text <> "" ->
        let p := _pos_to_index text_content pos in
        input_ranges (track_manual_input t pos text now)
        = [Range p (p + py.str_len text) "manual" (py.PFloat now)]
        /\ input_ranges (track_paste_input t pos text now)
           = [Range p (p + py.str_len text) "pasted" (py.PFloat now)]).
Proof.
  split; [|split].
  - unfold track_paste_input. by destruct (text_widget t).
  - intros Hw. unfold track_manual_input, track_paste_input. by rewrite Hw.
  - intros text_content Hw Hempty Htext p.
    unfold track_manual_input, track_paste_input, track. rewrite Hw, Hempty.
    apply String.eqb_neq in Htext. rewrite Htext. simpl.
    by rewrite !update_ranges_empty.
Qed.

Lemma track_rejects_empty_paste_only_witness :
  let t := set_text_widget init "ab" in
  input_ranges (track_paste_input t (Offset (-3)) "ab" noon)
  = [Range (-3) (-1) "pasted" (py.PFloat noon)].
Proof.
  exact (proj2 (proj2 (proj2 (track_rejects_empty_paste_only
           (set_text_widget init "ab") (Offset (-3)) "ab" noon))
           "ab" eq_refl eq_refl ltac:(discriminate))).
Defined.

(** C2 as stated fails: a paste at the negative offset [-3] is not
    rejected; the set, empty before, holds the range [-3 .. -1] after. *)
Lemma negative_offset_not_rejected :
  let t := set_text_widget init "ab" in
  _pos_to_index "ab" (Offset (-3)) < 0
  /\ track_paste_input t (Offset (-3)) "ab" noon <> t
  /\ input_ranges (track_paste_input t (Offset (-3)) "ab" noon)
     = [Range (-3) (-1) "pasted" (py.PFloat noon)].
Proof. split; [simpl; lia|]. split; [discriminate|reflexivity]. Qed.

(** A keystroke with no character is the one request of zero length that
    reaches [_update_ranges]: unlike an empty paste it is recorded. *)
Example empty_keystroke_recorded :
  input_ranges (track_manual_input (set_text_widget init "ab") (Offset 1) "" noon)
  = [Range 1 1 "manual" (py.PFloat noon)].
Proof. reflexivity. Qed.

End tracker.

(** ** The json library: what is written reads back *)

Section json_roundtrip.
Import py json.
#[local] Arguments String.append : simpl nomatch.

Lemma append_assoc (a b c : string) : (a +:+ b) +:+ c = a +:+ (b +:+ c).
Proof. induction a as [|x a IH]; simpl; [done|]. by rewrite IH. Qed.

Lemma append_nil_r (a : string) : a +:+ "" = a.
Proof. induction a as [|x a IH]; simpl; [done|]. by rewrite IH. Qed.

Lemma append_length (a b : string) :
  String.length (a +:+ b) = (String.length a + String.length b)%nat.
Proof. induction a as [|x a IH]; simpl; [done|]. by rewrite IH. Qed.

(** *** Numbers *)

Lemma scan_digits_dumps d rest :
  no_digit rest -> scan_digits (dumps_uint d +:+ rest) = (d, rest).
Proof.
  intros Hrest. induction d as [|d IH|d IH|d IH|d IH|d IH|d IH|d IH|d IH|d IH|d IH];
    simpl; try (by rewrite IH).
  destruct rest as [|c rest]; simpl in *; [done|]. by rewrite Hrest.
Qed.

Lemma nzhead_canonical d :
  Decimal.nzhead d <> Decimal.Nil -> canonical (Decimal.nzhead d) = true.
Proof. induction d; simpl; try done. Qed.

Lemma unorm_canonical d : canonical (Decimal.unorm d) = true.
Proof.
  unfold Decimal.unorm. pose proof (nzhead_canonical d) as H.
  destruct (Decimal.nzhead d); try done; by apply H.
Qed.

Lemma to_uint_canonical p : canonical (Pos.to_uint p) = true.
Proof.
  replace (Pos.to_uint p) with (Decimal.unorm (Pos.to_uint p));
    [apply unorm_canonical|].
  rewrite <- DecimalPos.Unsigned.to_of, DecimalPos.Unsigned.of_to. done.
Qed.

Lemma to_int_canonical z : canonical (digits (Z.to_int z)) = true.
Proof. destruct z; simpl; [done|apply to_uint_canonical..]. Qed.

Lemma scan_exponent_dumps e rest :
  match e with Some e => digits e <> Decimal.Nil | None => True end ->
  number_end rest ->
  scan_exponent (dumps_exp e +:+ rest) = Some (e, rest).
Proof.
  intros He Hrest. destruct e as [[d|d]|]; simpl.
  - rewrite scan_digits_dumps by (destruct rest; simpl in *; tauto).
    simpl in He. by destruct d.
  - rewrite scan_digits_dumps by (destruct rest; simpl in *; tauto).
    simpl in He. by destruct d.
  - destruct rest as [|c rest]; [done|]. simpl in *.
    destruct Hrest as (_ & _ & -> & ->). done.
Qed.

Lemma no_digit_frac_exp f e rest :
  number_end rest -> no_digit (dumps_frac f +:+ (dumps_exp e +:+ rest)).
Proof.
  intros Hrest. destruct f; simpl; try done.
  destruct e as [[d|d]|]; simpl; try done.
  destruct rest; simpl in *; tauto.
Qed.

Lemma scan_frac_dumps f e rest :
  number_end rest ->
  match dumps_frac f +:+ (dumps_exp e +:+ rest) with
  | String c s' =>
      if Ascii.eqb c "." then
        let (f', r) := scan_digits s' in
        match f' with
        | Decimal.Nil => None
        | _ => Some (f', r)
        end
      else Some (Decimal.Nil, dumps_frac f +:+ (dumps_exp e +:+ rest))
  | EmptyString => Some (Decimal.Nil, dumps_frac f +:+ (dumps_exp e +:+ rest))
  end = Some (f, dumps_exp e +:+ rest).
Proof.
  intros Hrest.
  assert (no_digit (dumps_exp e +:+ rest)) as Hnd.
  { destruct e as [[d|d]|]; simpl; try done. destruct rest; simpl in *; tauto. }
  destruct f; simpl;
    try (rewrite scan_digits_dumps by done; done).
  destruct e as [[d|d]|]; simpl; try done.
  destruct rest as [|c rest]; [done|]. simpl in *. by destruct Hrest as (_ & -> & _).
Qed.

Lemma scan_magnitude_dumps neg d f e rest :
  canonical d = true ->
  match e with Some e => digits e <> Decimal.Nil | None => True end ->
  number_end rest ->
  scan_magnitude neg (dumps_uint d +:+ (dumps_frac f +:+ (dumps_exp e +:+ rest)))
  = Some (match f, e with
          | Decimal.Nil, None =>
              PInt (Z.of_int (if neg then Decimal.Neg d else Decimal.Pos d))
          | _, _ =>
              PFloat {| f_int := if neg then Decimal.Neg d else Decimal.Pos d;
                        f_frac := f; f_exp := e |}
          end, rest).
Proof.
  intros Hd He Hrest. unfold scan_magnitude.
  rewrite scan_digits_dumps by by apply no_digit_frac_exp.
  rewrite Hd. simpl negb. cbv iota.
  rewrite scan_frac_dumps by done.
  rewrite scan_exponent_dumps by done.
  by destruct f, e.
Qed.

Lemma parse_value_S fuel s :
  parse_value (S fuel) s
  = match skip_ws s with
    | EmptyString => None
    | String c s' =>
        if Ascii.eqb c "{" then
          match skip_ws s' with
          | String c' r =>
              if Ascii.eqb c' "}" then Some (PDict [], r)
              else
                match parse_members fuel s' with
                | Some (pairs, r') => Some (PDict (dict_of_pairs pairs), r')
                | None => None
                end
          | EmptyString => None
          end
        else if Ascii.eqb c "[" then
          match skip_ws s' with
          | String c' r =>
              if Ascii.eqb c' "]" then Some (PList [], r)
              else
                match parse_elements fuel s' with
                | Some (l, r') => Some (PList l, r')
                | None => None
                end
          | EmptyString => None
          end
        else if Ascii.eqb c dquote then
          match scan_string s' with
          | Some (str, r) => Some (PStr str, r)
          | None => None
          end
        else if Ascii.eqb c "n" then
          match expect "ull" s' with Some r => Some (PNone, r) | None => None end
        else if Ascii.eqb c "t" then
          match expect "rue" s' with
          | Some r => Some (PBool true, r)
          | None => None
          end
        else if Ascii.eqb c "f" then
          match expect "alse" s' with
          | Some r => Some (PBool false, r)
          | None => None
          end
        else scan_number (String c s')
    end.
Proof. reflexivity. Qed.

Lemma parse_elements_S fuel s :
  parse_elements (S fuel) s
  = match parse_value fuel s with
    | Some (v, r) =>
        match skip_ws r with
        | String c r' =>
            if Ascii.eqb c "," then
              match parse_elements fuel r' with
              | Some (l, r'') => Some (v :: l, r'')
              | None => None
              end
            else if Ascii.eqb c "]" then Some ([v], r')
            else None
        | EmptyString => None
        end
    | None => None
    end.
Proof. reflexivity. Qed.

Lemma parse_members_S fuel s :
  parse_members (S fuel) s
  = match skip_ws s with
    | String q s1 =>
        if Ascii.eqb q dquote then
          match scan_string s1 with
          | Some (k, s2) =>
              match skip_ws s2 with
              | String c s3 =>
                  if Ascii.eqb c ":" then
                    match parse_value fuel s3 with
                    | Some (v, r) =>
                        match skip_ws r with
                        | String c' r' =>
                            if Ascii.eqb c' "," then
                              match parse_members fuel r' with
                              | Some (l, r'') => Some ((k, v) :: l, r'')
                              | None => None
                              end
                            else if Ascii.eqb c' "}" then Some ([(k, v)], r')
                            else None
                        | EmptyString => None
                        end
                    | None => None
                    end
                  else None
              | EmptyString => None
              end
          | None => None
          end
        else None
    | EmptyString => None
    end.
Proof. reflexivity. Qed.

#[local] Opaque parse_value parse_elements parse_members.
#[local] Arguments join : simpl never.

(** *** Strings *)

Lemma scan_escape_char c tail :
  scan_string (escape_char c +:+ tail) = cons_char c (scan_string tail).
Proof. destruct c as [[] [] [] [] [] [] [] []]; reflexivity. Qed.

Lemma scan_string_escape s rest :
  scan_string (escape s +:+ String dquote rest) = Some (s, rest).
Proof.
  induction s as [|c s IH]; [done|].
  cbn [escape]. rewrite append_assoc, scan_escape_char, IH. done.
Qed.

Lemma dumps_str_append s rest :
  dumps_str s +:+ rest = String dquote (escape s +:+ String dquote rest).
Proof. unfold dumps_str. simpl. by rewrite append_assoc. Qed.

(** *** Values *)

Lemma value_end_number_end s : value_end s -> number_end s.
Proof. destruct s as [|c s]; [done|]. simpl. intros [->|[->| ->]]; done. Qed.

Lemma value_end_skip_ws s : value_end s -> skip_ws s = s.
Proof. destruct s as [|c s]; [done|]. simpl. intros [->|[->| ->]]; done. Qed.

Lemma parse_value_scan_number fuel i tail :
  digits i <> Decimal.Nil ->
  parse_value (S fuel) (dumps_sint i +:+ tail)
  = scan_number (dumps_sint i +:+ tail).
Proof. intros Hi. rewrite parse_value_S. destruct i as [d|d]; destruct d; done. Qed.

Lemma scan_number_dumps i f e rest :
  canonical (digits i) = true ->
  match e with Some e => digits e <> Decimal.Nil | None => True end ->
  number_end rest ->
  scan_number (dumps_sint i +:+ (dumps_frac f +:+ (dumps_exp e +:+ rest)))
  = Some (match f, e with
          | Decimal.Nil, None => PInt (Z.of_int i)
          | _, _ => PFloat {| f_int := i; f_frac := f; f_exp := e |}
          end, rest).
Proof.
  intros Hi He Hrest. destruct i as [d|d].
  - transitivity (scan_magnitude false
      (dumps_uint d +:+ (dumps_frac f +:+ (dumps_exp e +:+ rest)))).
    { by destruct d. }
    by rewrite scan_magnitude_dumps.
  - simpl. by rewrite scan_magnitude_dumps.
Qed.

Lemma canonical_nonnil d : canonical d = true -> d <> Decimal.Nil.
Proof. by destruct d. Qed.

Lemma dumps_float_append f rest :
  dumps_float f +:+ rest
  = dumps_sint (f_int f) +:+ (dumps_frac (f_frac f) +:+ (dumps_exp (f_exp f) +:+ rest)).
Proof. unfold dumps_float. by rewrite !append_assoc. Qed.

(** Induction on values, through the lists and dictionaries inside. *)
Lemma val_ind (P : val -> Prop) :
  P PNone -> (forall b, P (PBool b)) -> (forall z, P (PInt z)) ->
  (forall f, P (PFloat f)) -> (forall s, P (PStr s)) ->
  (forall l, Forall P l -> P (PList l)) ->
  (forall d, Forall (fun kv => P (snd kv)) d -> P (PDict d)) ->
  forall v, P v.
Proof.
  intros HNone HBool HInt HFloat HStr HList HDict.
  fix IH 1. intros [|b|z|f|s|l|d].
  - exact HNone.
  - apply HBool.
  - apply HInt.
  - apply HFloat.
  - apply HStr.
  - apply HList. induction l as [|x l IHl]; constructor; [apply IH|apply IHl].
  - apply HDict. induction d as [|[k x] d IHd]; constructor; [apply IH|apply IHd].
Qed.

Lemma starts_value_sint i tail :
  digits i <> Decimal.Nil -> starts_value (dumps_sint i +:+ tail).
Proof. destruct i as [d|d]; destruct d; done. Qed.

Lemma dumps_starts v : jsonable v = true -> starts_value (dumps v).
Proof.
  destruct v as [|[]|z|f|s|l|d]; simpl; try done.
  - intros _. rewrite <- (append_nil_r (dumps_sint _)).
    apply starts_value_sint, canonical_nonnil, to_int_canonical.
  - unfold float_literal. intros [Hc _]%andb_true_iff.
    apply starts_value_sint. by apply canonical_nonnil.
Qed.

Lemma starts_value_skip_ws s : starts_value s -> skip_ws s = s.
Proof. destruct s as [|c s]; [done|]. simpl. by intros [-> _]. Qed.

Lemma starts_value_length s : starts_value s -> (1 <= String.length s)%nat.
Proof. destruct s; [done|]. simpl. lia. Qed.

Lemma starts_value_append s t : starts_value s -> starts_value (s +:+ t).
Proof. by destruct s. Qed.

Lemma join_cons sep x y l :
  join sep (x :: y :: l) = x +:+ sep +:+ join sep (y :: l).
Proof. done. Qed.

Lemma join_singleton sep x : join sep [x] = x.
Proof. done. Qed.

Lemma dict_set_fresh (k : string) (v : val) d :
  k ∉ map fst d -> dict_set k v d = d ++ [(k, v)].
Proof.
  induction d as [|[k' v'] d IH]; simpl; [done|].
  rewrite not_elem_of_cons. intros [Hne Hd].
  destruct (String.eqb_spec k' k); [congruence|]. by rewrite IH.
Qed.

Lemma dict_of_pairs_nodup d : NoDup (map fst d) -> dict_of_pairs d = d.
Proof.
  unfold dict_of_pairs.
  enough (forall acc, NoDup (map fst (acc ++ d)) ->
                      foldl (fun d kv => dict_set (fst kv) (snd kv) d) acc d
                      = acc ++ d) as H by apply (H []).
  induction d as [|[k v] d IH]; intros acc Hnd; simpl.
  - by rewrite app_nil_r.
  - rewrite dict_set_fresh.
    + rewrite IH; rewrite <- app_assoc; done.
    + rewrite map_app in Hnd. apply NoDup_app in Hnd as (_ & Hnd & _).
      intros Hin. apply (Hnd k Hin). simpl. by left.
Qed.

Lemma parse_elements_dumps l rest :
  l <> [] -> Forall reads_back l -> Forall (fun v => jsonable v = true) l ->
  forall fuel,
    (String.length (join "," (map dumps l)) + 1 < fuel)%nat ->
    parse_elements fuel (join "," (map dumps l) +:+ String "]" rest)
    = Some (l, rest).
Proof.
  intros Hne Hall. induction Hall as [|x l Hx Hall IH]; [done|].
  intros Hjs fuel Hfuel. apply Forall_cons in Hjs as [Hjx Hjs].
  destruct fuel as [|fuel]; [lia|]. rewrite parse_elements_S.
  pose proof (starts_value_length _ (dumps_starts x Hjx)) as Hlen.
  destruct l as [|y l].
  - simpl in *. rewrite join_singleton in *.
    rewrite Hx; [|lia|simpl; tauto]. done.
  - change (map dumps (x :: y :: l)) with (dumps x :: map dumps (y :: l)) in *.
    change (dumps x :: map dumps (y :: l))
      with (dumps x :: dumps y :: map dumps l) in *.
    rewrite join_cons in *. rewrite !append_length in Hfuel. simpl in Hfuel.
    rewrite !append_assoc. simpl.
    rewrite Hx; [|lia|simpl; tauto]. simpl.
    change (dumps y :: map dumps l) with (map dumps (y :: l)) in *.
    rewrite IH; [done|done|done|lia].
Qed.

Lemma parse_members_dumps d rest :
  d <> [] -> Forall (fun kv => reads_back (snd kv)) d ->
  Forall (fun kv => jsonable (snd kv) = true) d ->
  forall fuel,
    (String.length (join "," (map dumps_member d)) + 1 < fuel)%nat ->
    parse_members fuel (join "," (map dumps_member d) +:+ String "}" rest)
    = Some (d, rest).
Proof.
  intros Hne Hall. induction Hall as [|[k x] d Hx Hall IH]; [done|].
  intros Hjs fuel Hfuel. apply Forall_cons in Hjs as [Hjx Hjs].
  destruct fuel as [|fuel]; [lia|]. rewrite parse_members_S.
  pose proof (starts_value_length _ (dumps_starts x Hjx)) as Hlen.
  simpl in Hx, Hjx.
  destruct d as [|y d].
  - simpl in *. rewrite !append_assoc. simpl.
    rewrite scan_string_escape. simpl.
    rewrite !append_length in Hfuel. simpl in Hfuel.
    rewrite Hx; [|lia|simpl; tauto]. done.
  - change (map dumps_member ((k, x) :: y :: d))
      with (dumps_member (k, x) :: dumps_member y :: map dumps_member d) in *.
    rewrite join_cons in *. unfold dumps_member at 1 in Hfuel.
    unfold dumps_member at 1.
    rewrite !append_length in Hfuel. simpl in Hfuel.
    rewrite !append_assoc. rewrite dumps_str_append. simpl.
    rewrite scan_string_escape. simpl.
    rewrite Hx; [|lia|simpl; tauto]. simpl.
    change (dumps_member y :: map dumps_member d)
      with (map dumps_member (y :: d)) in *.
    rewrite IH; [done|done|done|lia].
Qed.

Lemma forallb_jsonable l :
  forallb jsonable l = true -> Forall (fun v => jsonable v = true) l.
Proof. intros H. apply Forall_forall. intros v Hv. rewrite forallb_forall in H. by apply H, list_elem_of_In. Qed.

Lemma dumps_PDict d :
  dumps (PDict d) = String "{" (join "," (map dumps_member d) +:+ "}").
Proof. done. Qed.

(** Every value the encoder can write reads back, whatever follows it. *)
Lemma parse_value_dumps v : jsonable v = true -> reads_back v.
Proof.
  induction v as [|b|z|f|s|l IH|d IH] using val_ind;
    intros Hjs fuel rest Hfuel Hrest;
    (destruct fuel as [|fuel]; [lia|]).
  - by rewrite parse_value_S.
  - rewrite parse_value_S. by destruct b.
  - cbn [dumps]. rewrite parse_value_scan_number
      by apply canonical_nonnil, to_int_canonical.
    pose proof (scan_number_dumps (Z.to_int z) Decimal.Nil None rest) as H.
    simpl in H. rewrite H;
      [by rewrite DecimalZ.of_to|apply to_int_canonical|done
      |by apply value_end_number_end].
  - cbn [dumps]. simpl in Hjs. unfold float_literal in Hjs.
    apply andb_true_iff in Hjs as [Hc Hfe].
    rewrite dumps_float_append.
    rewrite parse_value_scan_number by by apply canonical_nonnil.
    rewrite scan_number_dumps; [|done| |by apply value_end_number_end].
    + destruct f as [i fr e]. simpl in *. by destruct fr, e.
    + destruct (f_frac f), (f_exp f) as [e|]; try done; by destruct (digits e).
  - cbn [dumps]. rewrite dumps_str_append, parse_value_S. simpl.
    by rewrite scan_string_escape.
  - simpl in Hjs. apply forallb_jsonable in Hjs.
    cbn [dumps] in *. rewrite parse_value_S. simpl.
    destruct l as [|x l]; [done|].
    rewrite append_assoc. simpl in Hfuel. rewrite append_length in Hfuel.
    simpl in Hfuel.
    assert (starts_value (join "," (map dumps (x :: l)) +:+ String "]" rest))
      as Hst.
    { apply Forall_cons in Hjs as [Hjx _].
      destruct l; simpl; repeat apply starts_value_append;
        by apply dumps_starts. }
    change ("]" +:+ rest) with (String "]" rest).
    rewrite (starts_value_skip_ws _ Hst).
    destruct (join "," (map dumps (x :: l)) +:+ String "]" rest)
      as [|c s] eqn:Htext; [done|].
    destruct Hst as (_ & -> & _). rewrite <- Htext.
    rewrite parse_elements_dumps; [done|done| |done|cbn [map]; lia].
    rewrite Forall_forall in IH, Hjs. apply Forall_forall.
    intros v Hv. apply IH; [done|]. by apply Hjs.
  - simpl in Hjs. apply andb_true_iff in Hjs as [Hnd Hjs].
    apply bool_decide_eq_true in Hnd.
    assert (Forall (fun kv => jsonable (snd kv) = true) d) as Hjs'.
    { apply Forall_forall. intros [k x] Hkx. rewrite forallb_forall in Hjs.
      by apply (Hjs (k, x)), list_elem_of_In. }
    rewrite dumps_PDict in *. rewrite parse_value_S. simpl.
    destruct d as [|kx d]; [done|].
    rewrite append_assoc. simpl in Hfuel. rewrite append_length in Hfuel.
    simpl in Hfuel.
    assert (starts_value (join "," (map dumps_member (kx :: d))
                          +:+ String "}" rest)) as Hst.
    { destruct kx as [k x]. destruct d; simpl; done. }
    change ("}" +:+ rest) with (String "}" rest).
    rewrite (starts_value_skip_ws _ Hst).
    destruct (join "," (map dumps_member (kx :: d)) +:+ String "}" rest)
      as [|c s] eqn:Htext; [done|].
    destruct Hst as (_ & _ & ->). rewrite <- Htext.
    rewrite parse_members_dumps; [|done| |done|cbn [map]; lia].
    + by rewrite dict_of_pairs_nodup.
    + rewrite Forall_forall in IH, Hjs'. apply Forall_forall.
      intros kv Hkv. apply IH; [done|]. by apply Hjs'.
Qed.

(** [loads] undoes [dumps]. *)
Lemma loads_dumps v : jsonable v = true -> loads (dumps v) = Some v.
Proof.
  intros Hjs. unfold loads.
  pose proof (parse_value_dumps v Hjs (S (String.length (dumps v))) "") as H.
  rewrite append_nil_r in H. rewrite H; [done|lia|done].
Qed.

End json_roundtrip.

Section codec.
Import py metadata_manager.

(** ** metadata_manager.py: the codec *)

Lemma strip_starts c s : is_space c = false -> strip (String c s) <> "".
Proof.
  intros Hc. unfold strip. simpl. rewrite Hc. simpl.
  destruct (rstrip s); [by rewrite Hc|done].
Qed.

Lemma dumps_PDict_strip d : strip (json.dumps (PDict d)) <> "".
Proof. rewrite dumps_PDict. by apply strip_starts. Qed.

(** Text with nothing but white space is no JSON text. *)
Lemma lstrip_empty_parse s fuel :
  lstrip s = "" -> json.parse_value fuel s = None.
Proof.
  destruct fuel as [|fuel]; [done|]. rewrite parse_value_S.
  induction s as [|c s IH]; [done|]. simpl.
  destruct (is_space c) eqn:Hsp; [|done]. intros Hs.
  destruct (json.is_ws c) eqn:Hws; [by apply IH|].
  clear IH Hs. revert Hsp Hws.
  destruct c as [[] [] [] [] [] [] [] []]; try discriminate; done.
Qed.

Lemma strip_empty_lstrip s : strip s = "" -> lstrip s = "".
Proof.
  unfold strip. destruct s as [|c s]; [done|]. simpl.
  destruct (is_space c) eqn:Hc; [|].
  - destruct (lstrip s) as [|c' s'] eqn:Hl; [done|].
    assert (is_space c' = false) as Hc'.
    { clear -Hl. induction s as [|x s IH]; [done|]. simpl in Hl.
      destruct (is_space x) eqn:Hx; [by apply IH|]. by injection Hl as -> _. }
    simpl. destruct (rstrip s'); [by rewrite Hc'|done].
  - simpl. destruct (rstrip s); [by rewrite Hc|done].
Qed.

Lemma loads_blank s : strip s = "" -> json.loads s = None.
Proof.
  intros Hs. unfold json.loads.
  by rewrite lstrip_empty_parse by by apply strip_empty_lstrip.
Qed.

(** What [deserialize_metadata] returns for text that reads as [data]. *)
Lemma deserialize_parsed s data :
  json.loads s = Some data ->
  deserialize_metadata s
  = try_except
      (in_envelope ← contains "ghostkey_metadata" data;
       if in_envelope : bool then
         envelope ← getitem data "ghostkey_metadata";
         getitem envelope "data"
       else
         has_ranges ← contains "ranges" data;
         if has_ranges : bool then Ok data else Ok PNone)
      (fun _ => Ok PNone).
Proof.
  intros Hs. unfold deserialize_metadata, deserialize_body, json_loads.
  destruct (String.eqb_spec (strip s) "") as [Hb|_].
  { apply loads_blank in Hb. congruence. }
  rewrite Hs. simpl.
  destruct (contains "ghostkey_metadata" data) as [[]|]; simpl; try done.
  - destruct (getitem data "ghostkey_metadata") as [env|[]]; simpl; try done.
    by destruct (getitem env "data") as [|[]].
  - by destruct (contains "ranges" data) as [[]|[]].
  - by destruct e.
Qed.

Lemma deserialize_serialize self (data : val) created :
  json.float_literal created = true -> json.jsonable data = true ->
  deserialize_metadata (serialize_metadata self data created) = Ok data.
Proof.
  intros Hc Hd. unfold serialize_metadata.
  erewrite deserialize_parsed;
    [|apply loads_dumps; simpl; by rewrite Hc, Hd].
  done.
Qed.

Lemma jsonable_metadata (m : metadata) :
  Forall (fun r => json.jsonable (timestamp r) = true) (ranges m) ->
  json.jsonable (metadata_to_py m) = true.
Proof.
  intros Hm. simpl. rewrite andb_true_r.
  induction Hm as [|r l Hr _ IH]; [done|].
  simpl. rewrite Hr, IH. done.
Qed.

(** C3. For a metadata dictionary whose time stamps are values the
    encoder writes, decoding the encoded text gives the dictionary back,
    and with it the list under ['ranges']. *)
Theorem serialize_deserialize_roundtrip
  (self : MetadataManager) (m : metadata) (created : float) :
  json.float_literal created = true ->
  Forall (fun r => json.jsonable (timestamp r) = true) (ranges m) ->
  deserialize_metadata (serialize_metadata self (metadata_to_py m) created)
  = Ok (metadata_to_py m)
  /\ getitem (metadata_to_py m) "ranges"
     = Ok (PList (map range_to_py (ranges m))).
Proof.
  intros Hc Hm. split; [|done].
  apply deserialize_serialize; [done|]. by apply jsonable_metadata.
Qed.

Lemma serialize_deserialize_roundtrip_witness :
  deserialize_metadata
    (serialize_metadata init (metadata_to_py hello_set) noon)
  = Ok (metadata_to_py hello_set).
Proof.
  refine (proj1 (serialize_deserialize_roundtrip init hello_set noon eq_refl _)).
  repeat constructor.
Defined.

(** The envelope text of the example set. *)
Example serialize_hello_set :
  serialize_metadata init (metadata_to_py hello_set) noon
  = sq ("{'ghostkey_metadata':{'version':'1.0','created':1730000000.25,"
        +:+ "'data':{'version':'1.1','ranges':["
        +:+ "{'start':0,'end':5,'source':'manual','timestamp':1730000000.25},"
        +:+ "{'start':5,'end':6,'source':'pasted','timestamp':1730000000.25}"
        +:+ "]}}}").
Proof. reflexivity. Qed.



(** *** Validation *)

Lemma validate_range_valid range_info :
  structurally_valid range_info -> validate_range range_info = true.
Proof.
  intros (d & s & e & src & -> & Hs & He & Hsrc & ? & ? & ? & Hm).
  unfold validate_range, dict_has. simpl. rewrite Hs, He, Hsrc. simpl.
  destruct (Z.ltb_spec s 0), (Z.ltb_spec e 0), (Z.geb_spec s e); try lia.
  simpl. by destruct Hm as [-> | ->].
Qed.

Lemma range_to_py_valid r :
  0 <= start r -> start r < end_ r ->
  source r = "manual" \/ source r = "pasted" ->
  structurally_valid (range_to_py r).
Proof.
  intros. eexists _, (start r), (end_ r), (source r).
  split; [reflexivity|]. repeat split; try done. lia.
Qed.



End codec.

Section combinator.
Import py metadata_manager.

(** ** Merging *)

Lemma merge_loop_coalesce l acc prev :
  foldl merge_step (acc ++ [prev]) l = acc ++ coalesce_into prev l.
Proof.
  revert acc prev. induction l as [|r l IH]; intros acc prev; [done|].
  simpl. unfold merge_step at 2. rewrite last_snoc.
  rewrite Z.geb_leb.
  destruct (String.eqb (source prev) (source r) && (start r <=? end_ prev)).
  - by rewrite set_last_snoc, IH.
  - rewrite IH. by rewrite <- app_assoc.
Qed.

Lemma merge_loop l : foldl merge_step [] l = coalesce l.
Proof.
  destruct l as [|r l]; [done|]. simpl.
  apply (merge_loop_coalesce l [] r).
Qed.

(** C6. [merge_metadata] of two sets is the merge of the design, and its
    version is the merger's own, whatever the versions of the inputs. *)
Theorem merge_metadata_is_merge_spec (self : MetadataManager) (a b : metadata) :
  merge_metadata self (Some a) (Some b) = merge_spec (self_version self) a b
  /\ version (merge_metadata self (Some a) (Some b)) = self_version self.
Proof.
  split; [|done].
  unfold merge_metadata, merge_spec. by rewrite merge_loop.
Qed.

(** Overlapping ranges of one source merge; the version is the
    merger's. *)
Example merge_overlapping :
  merge_metadata init
    (Some {| version := "0.9"; ranges := [Range 0 10 "manual" PNone] |})
    (Some {| version := "1.1";
             ranges := [Range 4 6 "manual" PNone; Range 8 12 "pasted" PNone] |})
  = {| version := "1.0";
       ranges := [Range 0 10 "manual" PNone; Range 8 12 "pasted" PNone] |}.
Proof. reflexivity. Qed.

(** *** Merging on the store *)

Lemma insert_by_map {A B} (f : A -> B) (key : B -> Z) (key' : A -> Z) x l :
  key' x = key (f x) -> Forall (fun y => key' y = key (f y)) l ->
  map f (insert_by key' x l) = insert_by key (f x) (map f l).
Proof.
  intros Hx. induction 1 as [|y l Hy _ IH]; simpl; [done|].
  rewrite Hx, Hy. destruct (key (f x) <=? key (f y)); simpl; [done|].
  by rewrite IH.
Qed.

Lemma insert_by_Forall {A} (P : A -> Prop) key x l :
  P x -> Forall P l -> Forall P (insert_by key x l).
Proof. intros. by rewrite insert_by_Permutation, Forall_cons. Qed.

Lemma sort_Forall {A} (P : A -> Prop) key l :
  Forall P l -> Forall P (sort key l).
Proof. intros. by rewrite sort_Permutation. Qed.

Lemma sort_map {A B} (f : A -> B) (key : B -> Z) (key' : A -> Z) l :
  Forall (fun y => key' y = key (f y)) l ->
  map f (sort key' l) = sort key (map f l).
Proof.
  induction 1 as [|x l Hx Hl IH]; [done|].
  unfold sort in *. simpl. rewrite <- IH.
  apply insert_by_map; [done|]. by apply (sort_Forall _ key' l).
Qed.

(** A list of references and the list of dictionaries it refers to. *)
Lemma points_to_map h refs rs :
  Forall2 (points_to h) refs rs ->
  exists f, rs = map f refs
            /\ Forall (fun x => h !! x = Some (f x)) refs.
Proof.
  induction 1 as [|x r refs rs Hx _ (f & -> & Hf)].
  - by exists (fun _ => Range 0 0 "" PNone).
  - exists (fun y => default (Range 0 0 "" PNone) (h !! y)). split.
    + simpl. unfold points_to in Hx. rewrite Hx. simpl. f_equal.
      apply map_ext_Forall. eapply Forall_impl; [exact Hf|].
      simpl. by intros y ->.
    + constructor; [by rewrite Hx|].
      eapply Forall_impl; [exact Hf|]. simpl. by intros y ->.
Qed.

(** The loop on the store and the loop on values go together: the store
    grows by the merged ranges, and the merged list refers to them. *)
Lemma merge_loop_store h refs (f : ref -> range) merged :
  Forall (fun x => h !! x = Some (f x)) refs ->
  foldl merge_step_store
        (Some (h ++ merged, seq (List.length h) (List.length merged))) refs
  = let merged' := foldl merge_step merged (map f refs) in
    Some (h ++ merged', seq (List.length h) (List.length merged')).
Proof.
  intros Hrefs. revert merged.
  induction Hrefs as [|x refs Hx _ IH]; intros merged; [done|].
  cbn [foldl map]. rewrite <- IH. f_equal.
  unfold merge_step_store, merge_step. simpl.
  rewrite (lookup_app_l_Some _ _ _ _ Hx). simpl.
  destruct merged as [|m0 merged0] using rev_ind.
  { simpl. by rewrite !app_nil_r. }
  clear IHmerged0.
  rewrite !(last_snoc m0 merged0), length_app. simpl.
  rewrite seq_app. cbn [seq]. rewrite last_snoc. simpl.
  rewrite lookup_app_r by lia.
  replace (length h + length merged0 - length h)%nat
    with (length merged0 + 0)%nat by lia.
  rewrite lookup_app_r by lia.
  replace (length merged0 + 0 - length merged0)%nat with 0%nat by lia.
  simpl.
  destruct (String.eqb (source m0) (source (f x))
            && (end_ m0 >=? start (f x))).
  - rewrite set_last_snoc. rewrite insert_app_r_alt by lia.
    replace (length h + length merged0 - length h)%nat
      with (length merged0 + 0)%nat by lia.
    rewrite insert_app_r. simpl.
    rewrite !length_app. simpl. by rewrite seq_app.
  - rewrite !length_app. simpl.
    rewrite <- !app_assoc. simpl.
    replace (length merged0 + 1 + 1)%nat with (S (S (length merged0))) by lia.
    replace (length merged0 + 1)%nat with (S (length merged0)) by lia.
    rewrite !seq_S. rewrite <- !app_assoc. simpl.
    repeat f_equal; lia.
Qed.

(** [merge_metadata] on the store, for two lists of references that refer
    to the ranges [rs1] and [rs2]: the store grows by the merged ranges,
    which the output list refers to, and nothing else changes. *)
Lemma merge_metadata_store_spec self h refs1 refs2 rs1 rs2 v1 v2 :
  Forall2 (points_to h) refs1 rs1 -> Forall2 (points_to h) refs2 rs2 ->
  let merged :=
    ranges (merge_metadata self (Some {| version := v1; ranges := rs1 |})
                                (Some {| version := v2; ranges := rs2 |})) in
  merge_metadata_store self h (Some refs1) (Some refs2)
  = Some (h ++ merged,
          (self_version self, seq (List.length h) (List.length merged))).
Proof.
  intros H1 H2.
  destruct (points_to_map h (refs1 ++ refs2) (rs1 ++ rs2)) as (f & Hf & Hrefs).
  { by apply Forall2_app. }
  unfold merge_metadata_store, merge_metadata. simpl.
  assert (Forall (fun x => key_start h x = start (f x)) (refs1 ++ refs2)) as Hkey.
  { eapply Forall_impl; [exact Hrefs|]. simpl. intros x Hx.
    unfold key_start. by rewrite Hx. }
  pose proof (merge_loop_store h (sort (key_start h) (refs1 ++ refs2)) f []
                (sort_Forall _ _ _ Hrefs)) as Hloop.
  rewrite app_nil_r in Hloop. simpl in Hloop.
  unfold ref, store in *. rewrite Hloop. simpl.
  rewrite (sort_map f start (key_start h)) by done.
  rewrite <- Hf. done.
Qed.

(** C10. Merging writes to no dictionary of its inputs: in the store after
    the merge every reference of the two input lists, and every other
    reference of the store before, refers to the same dictionary, with its
    [start], [end], [source] and [timestamp] as they were, also when the
    output range made from it was extended. The output list refers to the
    merged ranges, which are new dictionaries. *)
Theorem merge_metadata_keeps_inputs
  (self : MetadataManager) (h : store) (refs1 refs2 : list ref)
  (a b : metadata) :
  Forall2 (points_to h) refs1 (ranges a) ->
  Forall2 (points_to h) refs2 (ranges b) ->
  exists h' out,
    merge_metadata_store self h (Some refs1) (Some refs2)
    = Some (h', (self_version self, out))
    /\ Forall2 (points_to h') refs1 (ranges a)
    /\ Forall2 (points_to h') refs2 (ranges b)
    /\ (forall x r, points_to h x r -> points_to h' x r)
    /\ Forall2 (points_to h') out
         (ranges (merge_metadata self (Some a) (Some b)))
    /\ Forall (fun x => (List.length h <= x)%nat) out.
Proof.
  intros H1 H2. destruct a as [v1 rs1], b as [v2 rs2]. simpl in H1, H2.
  eexists _, _.
  split; [by apply (merge_metadata_store_spec self h refs1 refs2 rs1 rs2 v1 v2)|].
  set (merged := ranges (merge_metadata self _ _)).
  assert (forall x r, points_to h x r -> points_to (h ++ merged) x r) as Hkeep.
  { unfold points_to. intros x r Hx. by apply lookup_app_l_Some. }
  repeat split.
  - eapply Forall2_impl; [exact H1|]. apply Hkeep.
  - eapply Forall2_impl; [exact H2|]. apply Hkeep.
  - exact Hkeep.
  - apply Forall2_lookup. intros i.
    destruct (merged !! i) as [r|] eqn:Hi.
    + pose proof (lookup_lt_Some _ _ _ Hi).
      rewrite lookup_seq_lt by done. constructor. unfold points_to, store in *.
      rewrite lookup_app_r by lia.
      by replace (length h + i - length h)%nat with i by lia.
    + apply lookup_ge_None in Hi. rewrite lookup_seq_ge by done. constructor.
  - apply Forall_forall. intros x Hx. apply elem_of_seq in Hx. lia.
Qed.

Lemma merge_metadata_keeps_inputs_witness :
  let a := {| version := "1.1"; ranges := [Range 0 10 "manual" (PFloat noon)] |} in
  let b := {| version := "1.1"; ranges := [Range 4 12 "manual" (PFloat noon)] |} in
  exists h' out,
    merge_metadata_store init two_copies (Some [0%nat]) (Some [1%nat])
    = Some (h', (self_version init, out))
    /\ Forall2 (points_to h') [0%nat] (ranges a)
    /\ Forall2 (points_to h') [1%nat] (ranges b)
    /\ (forall x r, points_to two_copies x r -> points_to h' x r)
    /\ Forall2 (points_to h') out (ranges (merge_metadata init (Some a) (Some b)))
    /\ Forall (fun x => (List.length two_copies <= x)%nat) out.
Proof.
  apply (merge_metadata_keeps_inputs init two_copies [0%nat] [1%nat]
           {| version := "1.1"; ranges := [Range 0 10 "manual" (PFloat noon)] |}
           {| version := "1.1"; ranges := [Range 4 12 "manual" (PFloat noon)] |});
    repeat constructor.
Defined.

(** The two ranges of [two_copies] merge into one that ends at 12; it is a
    third dictionary, and the first still ends at 10. *)
Example merge_extends_a_copy :
  merge_metadata_store init two_copies (Some [0%nat]) (Some [1%nat])
  = Some (two_copies ++ [Range 0 12 "manual" (PFloat noon)],
          ("1.0", [2%nat])).
Proof. reflexivity. Qed.

End combinator.

Section statistics.
Import py metadata_manager.

(** ** Statistics *)



Lemma stats_loop l c :
  let c' := foldl stats_step c l in
  tracked_chars c' = tracked_chars c + length_sum l
  /\ c_typed_chars c' = c_typed_chars c + length_sum_of "manual" l
  /\ c_pasted_chars c' = c_pasted_chars c + length_sum_of "pasted" l.
Proof.
  revert c. induction l as [|r l IH]; intros c; simpl; [lia|].
  destruct (IH (stats_step c r)) as (Ht & Hm & Hp). rewrite Ht, Hm, Hp.
  unfold stats_step.
  destruct (String.eqb_spec (source r) "manual") as [Hs|Hs].
  - rewrite Hs. simpl. lia.
  - destruct (String.eqb (source r) "pasted"); simpl; lia.
Qed.



Lemma length_sum_chain lo total l :
  chain lo l -> Forall (fun r => end_ r <= total) l -> lo <= total ->
  length_sum l <= total - lo.
Proof.
  revert lo. induction l as [|r l IH]; intros lo; simpl; [lia|].
  intros (Hlo & Hr & Hl) [Hrt Hlt]%Forall_cons _.
  specialize (IH _ Hl Hlt Hrt). lia.
Qed.




End statistics.

Section documents.
Import py file_manager.

(** ** file_manager.py: the embedded-document format *)








(** A file written for the example set reads back as its content and its
    metadata. *)
Example create_then_parse :
  _parse_lakra_content
    (_create_lakra_content metadata_manager.init "hello!"
       (metadata_to_py hello_set) noon)
  = Ok ("hello!", metadata_to_py hello_set).
Proof. vm_compute. reflexivity. Qed.

End documents.

(** ** More of text_tracker.py *)

Section tracker_queries.
Import text_tracker text_tracker_api.

Lemma option_eq_iff {A} (o1 o2 : option A) :
  (forall a, o1 = Some a <-> o2 = Some a) -> o1 = o2.
Proof.
  intros H. destruct o1 as [a|], o2 as [b|]; try done.
  - by apply (H b).
  - by pose proof (proj1 (H a) eq_refl).
  - by pose proof (proj2 (H b) eq_refl).
Qed.

Lemma source_at_covered l src index :
  source_at l index = Some src -> covered l src index.
Proof.
  unfold source_at, covered.
  destruct (List.find _ l) as [r|] eqn:Hfind; [|done]. intros [= <-].
  apply find_some in Hfind as [Hin Hr]. apply Exists_exists. exists r.
  split; [by apply list_elem_of_In|]. split; [done|]. lia.
Qed.

(** In a separated list the first range that holds a character is the
    only one. *)
Lemma covered_source_at lo l src index :
  chain lo l -> covered l src index -> source_at l index = Some src.
Proof.
  unfold source_at, covered. revert lo.
  induction l as [|r l IH]; intros lo Hc Hcov; [by apply Exists_nil in Hcov|].
  destruct Hc as (Hlo & Hr & Hc). simpl.
  destruct (Z.leb_spec (start r) index), (Z.ltb_spec index (end_ r)); simpl.
  - apply Exists_cons in Hcov as [[<- _]|Hcov]; [done|].
    apply Exists_exists in Hcov as (r' & Hin & _ & Hr').
    pose proof (chain_after _ _ Hc) as Hall.
    rewrite Forall_forall in Hall. specialize (Hall _ Hin). simpl in Hall. lia.
  - apply Exists_cons in Hcov as [[_ ?]|Hcov]; [lia|]. by eapply IH.
  - apply Exists_cons in Hcov as [[_ ?]|Hcov]; [lia|]. by eapply IH.
  - apply Exists_cons in Hcov as [[_ ?]|Hcov]; [lia|]. by eapply IH.
Qed.

Lemma source_at_iff lo l src index :
  chain lo l -> source_at l index = Some src <-> covered l src index.
Proof.
  intros Hc. split; [apply source_at_covered|by eapply covered_source_at].
Qed.

Lemma covered_Permutation l l' src index :
  Permutation l l' -> covered l src index <-> covered l' src index.
Proof.
  intros Hp. unfold covered. rewrite !Exists_exists.
  split; intros (r & Hin & H); exists r; (split; [|done]).
  - by rewrite <- Hp.
  - by rewrite Hp.
Qed.

Lemma covered_nil src index : covered [] src index <-> False.
Proof. apply Exists_nil. Qed.

Lemma covered_cons r l src index :
  covered (r :: l) src index
  <-> (source r = src /\ start r <= index < end_ r) \/ covered l src index.
Proof. apply Exists_cons. Qed.

Lemma covered_app l1 l2 src index :
  covered (l1 ++ l2) src index <-> covered l1 src index \/ covered l2 src index.
Proof. apply Exists_app. Qed.

(** *** Deletion reconciliation, seen through the query *)

(** X1. After reconciliation against a buffer of [current_length]
    characters, a character inside the buffer has the source it had, and
    a character at or past the buffer's end has none. *)
Theorem source_at_handle_deletions (current_length : Z) (l : list range)
  (index : Z) :
  source_at (_handle_deletions current_length l) index
  = if index <? current_length then source_at l index else None.
Proof.
  rewrite handle_deletions_flat_map. unfold source_at.
  induction l as [|r l IH]; simpl; [by destruct (index <? current_length)|].
  unfold kept at 1.
  destruct (Z.geb_spec (start r) current_length).
  { simpl.
    destruct (Z.leb_spec (start r) index), (Z.ltb_spec index (end_ r)),
             (Z.ltb_spec index current_length); simpl; try lia; try done;
      destruct (Z.ltb_spec index current_length); try lia; done. }
  destruct (Z.gtb_spec (Z.min (end_ r) current_length) (start r)); simpl.
  - destruct (Z.leb_spec (start r) index),
             (Z.ltb_spec index (Z.min (end_ r) current_length)),
             (Z.ltb_spec index (end_ r)),
             (Z.ltb_spec index current_length); simpl; try lia; try done;
      destruct (Z.ltb_spec index current_length); try lia; done.
  - destruct (Z.leb_spec (start r) index), (Z.ltb_spec index (end_ r)),
             (Z.ltb_spec index current_length); simpl; try lia; try done;
      destruct (Z.ltb_spec index current_length); try lia; done.
Qed.

(** Reconciling twice is reconciling once against the shorter buffer. *)
Lemma kept_kept a b r :
  flat_map (kept a) (kept b r) = kept (Z.min a b) r.
Proof.
  unfold kept at 2.
  destruct (Z.geb_spec (start r) b).
  { simpl. unfold kept. destruct (Z.geb_spec (start r) (Z.min a b)); [done|lia]. }
  destruct (Z.gtb_spec (Z.min (end_ r) b) (start r)); simpl.
  - rewrite app_nil_r. unfold kept. simpl.
    destruct (Z.geb_spec (start r) a), (Z.geb_spec (start r) (Z.min a b));
      try lia; [done|].
    replace (Z.min (Z.min (end_ r) b) a) with (Z.min (end_ r) (Z.min a b)) by lia.
    done.
  - unfold kept. destruct (Z.geb_spec (start r) (Z.min a b)); [done|].
    destruct (Z.gtb_spec (Z.min (end_ r) (Z.min a b)) (start r)); [lia|done].
Qed.

(** X2. Reconciling against one buffer length and then another gives what
    reconciling against the smaller of the two gives; so a second
    reconciliation against the same length changes nothing. *)
Theorem handle_deletions_twice (a b : Z) (l : list range) :
  _handle_deletions a (_handle_deletions b l) = _handle_deletions (Z.min a b) l
  /\ _handle_deletions b (_handle_deletions b l) = _handle_deletions b l.
Proof.
  assert (forall a b, _handle_deletions a (_handle_deletions b l)
                      = _handle_deletions (Z.min a b) l) as H.
  { clear. intros a b. rewrite !handle_deletions_flat_map.
    induction l as [|r l IH]; [done|]. simpl.
    by rewrite flat_map_app, IH, kept_kept. }
  split; [apply H|]. rewrite H. by rewrite Z.min_id.
Qed.

(** *** Insertion, seen through the query *)

Lemma covered_shift_step start_idx end_idx r src index :
  covered (shift_step start_idx end_idx [] r) src index
  <-> source r = src
      /\ ((index < start_idx /\ start r <= index < end_ r)
          \/ (end_idx <= index
              /\ start r <= index - (end_idx - start_idx) < end_ r)).
Proof.
  unfold covered, shift_step.
  destruct (Z.leb_spec (end_ r) start_idx); simpl.
  { rewrite Exists_cons, Exists_nil. intuition lia. }
  destruct (Z.geb_spec (start r) start_idx); simpl.
  { rewrite Exists_cons, Exists_nil. simpl. intuition lia. }
  destruct (Z.ltb_spec (start r) start_idx); [|lia].
  destruct (Z.gtb_spec (end_ r) start_idx); [|lia]. simpl.
  rewrite !Exists_cons, Exists_nil. simpl. intuition lia.
Qed.

Lemma covered_shifted start_idx end_idx l src index :
  covered (foldl (shift_step start_idx end_idx) [] l) src index
  <-> (index < start_idx /\ covered l src index)
      \/ (end_idx <= index /\ covered l src (index - (end_idx - start_idx))).
Proof.
  rewrite (foldl_append _ (shift_step start_idx end_idx []))
    by apply shift_step_append.
  induction l as [|r l IH]; simpl.
  { rewrite !covered_nil. intuition. }
  rewrite covered_app, IH, covered_shift_step, !covered_cons.
  intuition lia.
Qed.

Lemma covered_coalesce acc l src index :
  Forall (fun r => start r <= end_ r) (acc ++ l) ->
  covered (foldl coalesce_step acc l) src index
  <-> covered (acc ++ l) src index.
Proof.
  revert acc. induction l as [|r l IH]; intros acc Hall; simpl.
  { by rewrite app_nil_r. }
  unfold coalesce_step. destruct (last acc) as [m|] eqn:Hlast.
  - apply last_Some in Hlast as [acc' ->].
    rewrite <- app_assoc in Hall. simpl in Hall.
    apply Forall_app in Hall as [Hacc' Hall].
    apply Forall_cons_1 in Hall as [Hm Hall].
    apply Forall_cons_1 in Hall as [Hr Hall].
    destruct (String.eqb_spec (source m) (source r)) as [Hsrc|Hsrc]; simpl.
    + destruct (Z.eqb_spec (end_ m) (start r)) as [Hend|Hend].
      * rewrite set_last_snoc, IH.
        -- rewrite <- !app_assoc. simpl. rewrite !covered_app, !covered_cons.
           simpl. rewrite Hsrc.
           assert (start m <= index < end_ r
                   <-> start m <= index < end_ m \/ start r <= index < end_ r)
             by lia.
           tauto.
        -- rewrite <- app_assoc. simpl. apply Forall_app. split; [done|].
           apply Forall_cons_2; [simpl; lia|done].
      * rewrite IH; rewrite <- !app_assoc; simpl; [done|].
        apply Forall_app. split; [done|].
        by apply Forall_cons_2; [|apply Forall_cons_2].
    + rewrite IH; rewrite <- !app_assoc; simpl; [done|].
      apply Forall_app. split; [done|].
      by apply Forall_cons_2; [|apply Forall_cons_2].
  - apply last_None in Hlast as ->. simpl in *. by rewrite IH.
Qed.

(** Who holds a character after an insertion, by the ranges before it. *)
Lemma covered_update_ranges current_length l start_idx end_idx src now s index :
  start_idx < end_idx -> separated l ->
  covered (_update_ranges current_length l start_idx end_idx src now) s index
  <-> (index < start_idx
       /\ covered (_handle_deletions current_length l) s index)
      \/ (start_idx <= index < end_idx /\ s = src)
      \/ (end_idx <= index
          /\ covered (_handle_deletions current_length l) s
                     (index - (end_idx - start_idx))).
Proof.
  intros Hlen [lo Hl]. unfold _update_ranges.
  set (shifted := _ ++ [_]).
  assert (scattered shifted) as Hsc.
  { apply shifted_scattered; [done|].
    eapply chain_scattered, handle_deletions_chain, Hl. }
  eapply scattered_Permutation in Hsc;
    [|symmetry; apply (sort_Permutation start)].
  pose proof (sorted_scattered_chain _ (sort_sorted start shifted) Hsc) as Hc.
  rewrite covered_coalesce.
  2:{ simpl. eapply Forall_impl; [eapply chain_after, Hc|].
      simpl. intros; lia. }
  simpl. rewrite (covered_Permutation _ _ _ _ (sort_Permutation start shifted)).
  unfold shifted. rewrite covered_app, covered_shifted.
  rewrite covered_cons, covered_nil. simpl.
  intuition (lia || congruence).
Qed.

(** X3. After an insertion of at least one character at [start_idx] into
    separated ranges, a character before the insertion has the source it
    had after reconciliation, a character of the insertion has the new
    source, and a character behind it has the source of the character
    that was shifted there. *)
Theorem source_at_update_ranges (current_length : Z) (l : list range)
  (start_idx end_idx : Z) (src : string) (now : py.float) (index : Z) :
  start_idx < end_idx -> separated l ->
  source_at (_update_ranges current_length l start_idx end_idx src now) index
  = if index <? start_idx
    then source_at (_handle_deletions current_length l) index
    else if index <? end_idx then Some src
    else source_at (_handle_deletions current_length l)
                   (index - (end_idx - start_idx)).
Proof.
  intros Hlen Hsep.
  destruct (update_ranges_separated current_length l start_idx end_idx src now
              Hlen Hsep) as [lo' Hc'].
  destruct Hsep as [lo Hl].
  pose proof (handle_deletions_chain current_length _ _ Hl) as Hd.
  assert (separated l) as Hsep by by exists lo.
  apply option_eq_iff. intros s.
  rewrite (source_at_iff _ _ _ _ Hc'), covered_update_ranges by done.
  destruct (Z.ltb_spec index start_idx).
  { rewrite (source_at_iff _ _ _ _ Hd). intuition lia. }
  destruct (Z.ltb_spec index end_idx).
  { split; [|intros [= ->]; right; left; split; [lia|done]].
    intros [[? _]|[[_ ->]|[? _]]]; [lia|done|lia]. }
  rewrite (source_at_iff _ _ _ _ Hd). intuition lia.
Qed.

Lemma source_at_update_ranges_witness :
  let l := [Range 0 5 "manual" (py.PFloat noon)] in
  2 < 5 /\ separated l
  /\ source_at (_update_ranges 8 l 2 5 "pasted" noon) 6 = Some "manual".
Proof.
  assert (separated [Range 0 5 "manual" (py.PFloat noon)]) as Hsep.
  { exists 0. simpl. lia. }
  split; [lia|]. split; [exact Hsep|].
  apply (source_at_update_ranges 8 [Range 0 5 "manual" (py.PFloat noon)]
           2 5 "pasted" noon 6); [lia|exact Hsep].
Defined.

(** *** Insertion, seen through the statistics *)







(** *** When reconciliation has nothing to do *)

Lemma flat_map_fixed {A} (f : A -> list A) (l : list A) :
  (forall x, (List.length (f x) <= 1)%nat) ->
  flat_map f l = l -> Forall (fun x => f x = [x]) l.
Proof.
  intros Hf. induction l as [|x l IH]; [constructor|]. simpl. intros Heq.
  assert (forall l', (List.length (flat_map f l') <= List.length l')%nat) as Hlen.
  { induction l' as [|y l' IH']; simpl; [lia|].
    rewrite length_app. specialize (Hf y). lia. }
  specialize (Hf x). destruct (f x) as [|y [|z fx]] eqn:Hfx; simpl in *.
  - specialize (Hlen l). rewrite Heq in Hlen. simpl in Hlen. lia.
  - injection Heq as -> Heq. constructor; [done|by apply IH].
  - lia.
Qed.

Lemma handle_deletions_inside current_length l :
  Forall (fun r => start r < end_ r /\ end_ r <= current_length) l ->
  _handle_deletions current_length l = l.
Proof.
  rewrite handle_deletions_flat_map.
  induction 1 as [|r l [Hr Hend] _ IH]; [done|]. simpl. rewrite IH.
  unfold kept.
  destruct (Z.geb_spec (start r) current_length); [lia|].
  destruct (Z.gtb_spec (Z.min (end_ r) current_length) (start r)); [|lia].
  replace (Z.min (end_ r) current_length) with (end_ r) by lia.
  by rewrite set_end_same.
Qed.

(** X5. Reconciliation leaves the list of ranges as it is exactly when
    every range is non-empty and ends inside the buffer. *)
Theorem handle_deletions_unchanged (current_length : Z) (l : list range) :
  _handle_deletions current_length l = l
  <-> Forall (fun r => start r < end_ r /\ end_ r <= current_length) l.
Proof.
  split; [|apply handle_deletions_inside].
  rewrite handle_deletions_flat_map.
  intros Heq. apply flat_map_fixed in Heq.
  - eapply Forall_impl; [exact Heq|]. intros r. unfold kept. simpl.
    destruct (Z.geb_spec (start r) current_length); [done|].
    destruct (Z.gtb_spec (Z.min (end_ r) current_length) (start r)); [|done].
    intros [= Hr]. destruct r as [s e src ts]. simpl in *.
    injection Hr as Hr. lia.
  - intros r. unfold kept. repeat case_match; simpl; lia.
Qed.

(** *** Undo and redo *)

Lemma str_len_empty s : py.str_len s = 0 <-> s = "".
Proof. unfold py.str_len. destruct s; simpl; split; (done || lia). Qed.

(** X6. After an undo every character of the buffer counts as typed,
    whatever the tracker held before, and after a redo every character
    counts as pasted; a position outside the buffer has no source. *)
Theorem undo_redo_sources (t : TextTracker) (current_text : string)
  (now : py.float) (index : Z) :
  text_widget t = Some current_text ->
  get_source_at_position (refresh_after_undo t now) (Offset index)
  = (if (0 <=? index) && (index <? py.str_len current_text)
     then Some "manual" else None)
  /\ get_source_at_position (restore_from_current_text t now) (Offset index)
     = (if (0 <=? index) && (index <? py.str_len current_text)
        then Some "pasted" else None).
Proof.
  intros Hw.
  unfold get_source_at_position, pos_to_index, refresh_after_undo,
    restore_from_current_text.
  rewrite Hw. simpl.
  destruct (String.eqb_spec current_text "") as [->|Hne]; simpl.
  - change (py.str_len "") with 0.
    by destruct (Z.leb_spec 0 index), (Z.ltb_spec index 0); try lia.
  - unfold source_at. simpl.
    by destruct ((0 <=? index) && (index <? py.str_len current_text)).
Qed.

Lemma undo_redo_sources_witness :
  let t := set_text_widget init "hello" in
  text_widget t = Some "hello"
  /\ get_source_at_position (refresh_after_undo t noon) (Offset 3)
     = Some "manual"
  /\ get_source_at_position (restore_from_current_text t noon) (Offset 3)
     = Some "pasted".
Proof.
  split; [reflexivity|].
  apply (undo_redo_sources (set_text_widget init "hello") "hello" noon 3
           eq_refl).
Defined.

(** *** The hover range and the area query *)

(** X7. On separated ranges the hover lookup agrees with the source
    query: it finds a range for a source exactly when that is the source
    at the position, and the range it finds is one of the tracker's,
    holds the position and has that source. *)
Theorem find_hover_range_source (t : TextTracker) (pos : position)
  (src : string) :
  separated (input_ranges t) ->
  (get_source_at_position t pos = Some src
   <-> exists r, ui_components.find_hover_range t pos src = Some r)
  /\ forall r, ui_components.find_hover_range t pos src = Some r ->
       r ∈ input_ranges t /\ source r = src
       /\ start r <= pos_to_index t pos < end_ r.
Proof.
  intros [lo Hc].
  assert (forall r, ui_components.find_hover_range t pos src = Some r ->
            r ∈ input_ranges t /\ source r = src
            /\ start r <= pos_to_index t pos < end_ r) as Hfound.
  { intros r Hr. unfold ui_components.find_hover_range in Hr.
    apply find_some in Hr as [Hin Hr]. split; [by apply list_elem_of_In|].
    apply andb_true_iff in Hr as [Hr Hsrc].
    split; [by apply String.eqb_eq|]. lia. }
  split; [|done]. unfold get_source_at_position.
  rewrite (source_at_iff _ _ _ _ Hc). split.
  - intros (r & Hin & Hsrc & Hr)%Exists_exists.
    unfold ui_components.find_hover_range.
    destruct (List.find _ (input_ranges t)) as [r'|] eqn:Hfind; [by exists r'|].
    eapply find_none in Hfind; [|by apply list_elem_of_In].
    simpl in Hfind. apply String.eqb_eq in Hsrc. rewrite Hsrc in Hfind.
    rewrite andb_true_r in Hfind.
    destruct (Z.leb_spec (start r) (pos_to_index t pos)),
             (Z.ltb_spec (pos_to_index t pos) (end_ r)); simpl in *; (done || lia).
  - intros [r Hr]. destruct (Hfound _ Hr) as (Hin & Hsrc & Hpos).
    apply Exists_exists. by exists r.
Qed.

Lemma find_hover_range_source_witness :
  let t := {| text_widget := Some "hello!";
              input_ranges := [Range 0 5 "manual" (py.PFloat noon);
                               Range 5 6 "pasted" (py.PFloat noon)] |} in
  separated (input_ranges t)
  /\ (get_source_at_position t (Offset 5) = Some "pasted"
      <-> exists r,
            ui_components.find_hover_range t (Offset 5) "pasted" = Some r).
Proof.
  assert (separated [Range 0 5 "manual" (py.PFloat noon);
                     Range 5 6 "pasted" (py.PFloat noon)]) as Hsep.
  { exists 0. simpl. lia. }
  split; [exact Hsep|].
  exact (proj1 (find_hover_range_source
                  {| text_widget := Some "hello!";
                     input_ranges := [Range 0 5 "manual" (py.PFloat noon);
                                      Range 5 6 "pasted" (py.PFloat noon)] |}
                  (Offset 5) "pasted" Hsep)).
Defined.

(** Without separation the two differ: the query answers with the first
    range that holds the position, the hover lookup with the first of
    the wanted source. *)
Example find_hover_range_overlap :
  let t := {| text_widget := Some "hello";
              input_ranges := [Range 0 5 "manual" (py.PFloat noon);
                               Range 2 4 "pasted" (py.PFloat noon)] |} in
  get_source_at_position t (Offset 3) = Some "manual"
  /\ ui_components.find_hover_range t (Offset 3) "pasted"
     = Some (Range 2 4 "pasted" (py.PFloat noon)).
Proof. by split. Qed.

(** X8. For ranges none of which is empty or inverted and a non-empty
    area [start_idx .. end_idx], the area query returns some range
    exactly when some character of the area has a source. *)
Theorem get_ranges_in_area_source (t : TextTracker) (start_idx end_idx : Z) :
  start_idx < end_idx ->
  Forall (fun r => start r < end_ r) (input_ranges t) ->
  get_ranges_in_area t (Offset start_idx) (Offset end_idx) <> []
  <-> exists index,
        start_idx <= index < end_idx
        /\ get_source_at_position t (Offset index) <> None.
Proof.
  intros Harea Hne.
  assert (forall i, pos_to_index t (Offset i) = i) as Hpos.
  { intros i. unfold pos_to_index. by destruct (text_widget t). }
  unfold get_ranges_in_area, get_source_at_position. rewrite !Hpos. split.
  - intros Hres.
    destruct (List.filter _ (input_ranges t)) as [|r rs] eqn:Hf; [done|].
    assert (In r (List.filter
                    (fun r => (start r <? end_idx) && (end_ r >? start_idx))
                    (input_ranges t))) as Hin by (rewrite Hf; by left).
    apply filter_In in Hin as [Hin Hr].
    rewrite Forall_forall in Hne.
    specialize (Hne r (proj2 (list_elem_of_In _ _) Hin)). simpl in Hne.
    exists (Z.max start_idx (start r)). split; [lia|].
    unfold source_at.
    destruct (List.find _ (input_ranges t)) as [r'|] eqn:Hfind; [done|].
    eapply find_none in Hfind; [|exact Hin]. simpl in Hfind.
    apply andb_true_iff in Hr as [Hr1 Hr2].
    apply Z.ltb_lt in Hr1. apply Z.gtb_lt in Hr2.
    apply andb_false_iff in Hfind as [Hfind|Hfind];
      [apply Z.leb_gt in Hfind|apply Z.ltb_ge in Hfind];
      rewrite Hpos in Hfind; lia.
  - intros (index & Hidx & Hsrc). unfold source_at in Hsrc.
    rewrite Hpos in Hsrc.
    destruct (List.find _ (input_ranges t)) as [r|] eqn:Hfind; [|done].
    apply find_some in Hfind as [Hin Hr].
    intros Hnil.
    assert (In r (List.filter
                    (fun r => (start r <? end_idx) && (end_ r >? start_idx))
                    (input_ranges t))) as Hin'.
    { apply filter_In. split; [done|].
      apply andb_true_iff in Hr as [Hr1 Hr2].
      apply Z.leb_le in Hr1. apply Z.ltb_lt in Hr2.
      apply andb_true_iff. split; [apply Z.ltb_lt|apply Z.gtb_lt]; lia. }
    by rewrite Hnil in Hin'.
Qed.

Lemma get_ranges_in_area_source_witness :
  let t := {| text_widget := Some "hello!";
              input_ranges := [Range 0 5 "manual" (py.PFloat noon)] |} in
  get_ranges_in_area t (Offset 4) (Offset 9) <> []
  <-> exists index,
        4 <= index < 9 /\ get_source_at_position t (Offset index) <> None.
Proof.
  apply (get_ranges_in_area_source
           {| text_widget := Some "hello!";
              input_ranges := [Range 0 5 "manual" (py.PFloat noon)] |} 4 9).
  - lia.
  - apply Forall_cons_2; [simpl; lia|apply Forall_nil_2].
Defined.

End tracker_queries.

(** ** More of metadata_manager.py *)

Section merging.
Import py metadata_manager.

Lemma merge_metadata_ranges self m1 m2 :
  ranges (merge_metadata self m1 m2)
  = coalesce (sort start (given_ranges m1 ++ given_ranges m2)).
Proof.
  unfold merge_metadata. simpl. rewrite merge_loop.
  destruct m1, m2; simpl; by rewrite ?app_nil_r.
Qed.

Lemma covered_coalesce_into prev l src index :
  Forall (fun r => start prev <= start r) l ->
  StronglySorted (key_le start) l ->
  covered (coalesce_into prev l) src index <-> covered (prev :: l) src index.
Proof.
  revert prev. induction l as [|r l IH]; intros prev Hprev Hs; [done|].
  apply Forall_cons_1 in Hprev as [Hr Hprev].
  apply StronglySorted_inv in Hs as [Hs Hrl]. simpl.
  destruct (String.eqb_spec (source prev) (source r)) as [Hsrc|Hsrc]; simpl.
  - destruct (Z.leb_spec (start r) (end_ prev)).
    + rewrite IH; [|done..]. rewrite !covered_cons. simpl. rewrite Hsrc.
      assert (start prev <= index < Z.max (end_ prev) (end_ r)
              <-> start prev <= index < end_ prev
                  \/ start r <= index < end_ r) by lia.
      tauto.
    + rewrite (covered_cons prev), IH, !covered_cons; [done| |done].
      eapply Forall_impl; [exact Hrl|]. unfold key_le. simpl. intros; lia.
  - rewrite (covered_cons prev), IH, !covered_cons; [done| |done].
    eapply Forall_impl; [exact Hrl|]. unfold key_le. simpl. intros; lia.
Qed.

Lemma covered_coalesce_sorted l src index :
  StronglySorted (key_le start) l ->
  covered (coalesce l) src index <-> covered l src index.
Proof.
  destruct l as [|r l]; [done|]. intros [Hs Hrl]%StronglySorted_inv.
  simpl. by apply covered_coalesce_into.
Qed.

(** X9. Merging loses and invents nothing: a character has a source in
    the merged ranges exactly when it has that source in one of the two
    arguments. An argument that is absent contributes nothing. *)
Theorem merge_metadata_coverage (self : MetadataManager)
  (metadata1 metadata2 : option metadata) (src : string) (index : Z) :
  covered (ranges (merge_metadata self metadata1 metadata2)) src index
  <-> covered (given_ranges metadata1) src index
      \/ covered (given_ranges metadata2) src index.
Proof.
  rewrite merge_metadata_ranges.
  rewrite covered_coalesce_sorted by apply sort_sorted.
  rewrite (covered_Permutation _ _ _ _ (sort_Permutation start _)).
  apply covered_app.
Qed.

(** *** The shape of a merge result *)

Lemma coalesce_into_head prev l :
  exists p rest, coalesce_into prev l = p :: rest
                 /\ start p = start prev /\ source p = source prev.
Proof.
  revert prev. induction l as [|r l IH]; intros prev; simpl; [by eauto|].
  destruct (_ && _); [|by eauto].
  destruct (IH (set_end prev (Z.max (end_ prev) (end_ r))))
    as (p & rest & -> & ? & ?). by eauto.
Qed.

Lemma coalesce_into_settled prev l :
  Forall (fun r => start prev <= start r) l ->
  StronglySorted (key_le start) l ->
  settled (coalesce_into prev l).
Proof.
  revert prev. induction l as [|r l IH]; intros prev Hprev Hs; [done|].
  apply Forall_cons_1 in Hprev as [Hr Hprev].
  apply StronglySorted_inv in Hs as [Hs Hrl].
  assert (Forall (fun r' => start r <= start r') l) as Hrl'.
  { eapply Forall_impl; [exact Hrl|]. unfold key_le. simpl. intros; lia. }
  cbn [coalesce_into].
  destruct (String.eqb_spec (source prev) (source r)) as [Hsrc|Hsrc];
    [destruct (Z.leb_spec (start r) (end_ prev))|]; cbn [andb].
  - by apply IH.
  - destruct (coalesce_into_head r l) as (p & rest & Heq & Hp & Hps).
    specialize (IH r Hrl' Hs). rewrite Heq in *.
    split; [|done]. rewrite Hp. lia.
  - destruct (coalesce_into_head r l) as (p & rest & Heq & Hp & Hps).
    specialize (IH r Hrl' Hs). rewrite Heq in *.
    split; [|done]. rewrite Hp, Hps. split; [lia|by left].
Qed.

Lemma settled_sorted l : settled l -> sort start l = l.
Proof.
  induction l as [|x l IH]; [done|]. intros [Hx Hl]. simpl.
  rewrite (IH Hl). destruct l as [|y l]; [done|]. simpl.
  destruct (Z.leb_spec (start x) (start y)); [done|lia].
Qed.

Lemma settled_coalesce_into x l : settled (x :: l) -> coalesce_into x l = x :: l.
Proof.
  revert x. induction l as [|y l IH]; intros x; [done|].
  intros [[Hxy Hgap] Hl]. simpl.
  destruct (String.eqb_spec (source x) (source y)) as [Hsrc|Hsrc]; simpl.
  - destruct (Z.leb_spec (start y) (end_ x)); [|by rewrite IH].
    destruct Hgap; [done|lia].
  - by rewrite IH.
Qed.

Lemma settled_lookup l i x y :
  settled l -> l !! i = Some x -> l !! S i = Some y ->
  start x <= start y /\ (source x <> source y \/ end_ x < start y).
Proof.
  revert i. induction l as [|z l IH]; intros i Hl Hx Hy; [done|].
  destruct Hl as [Hz Hl]. destruct i as [|i]; simpl in *.
  - injection Hx as ->. destruct l as [|y' l]; [done|].
    simpl in Hy. by injection Hy as ->.
  - by eapply IH.
Qed.

(** X10. In the ranges of a merge result each range starts no later than
    the next, and two consecutive ranges of the same source leave a gap
    between them. *)
Theorem merge_metadata_settled (self : MetadataManager)
  (metadata1 metadata2 : option metadata) (i : nat) (x y : range) :
  ranges (merge_metadata self metadata1 metadata2) !! i = Some x ->
  ranges (merge_metadata self metadata1 metadata2) !! S i = Some y ->
  start x <= start y /\ (source x <> source y \/ end_ x < start y).
Proof.
  rewrite merge_metadata_ranges. apply settled_lookup.
  pose proof (sort_sorted start (given_ranges metadata1 ++ given_ranges metadata2))
    as Hs.
  destruct (sort start _) as [|r l]; [done|].
  apply StronglySorted_inv in Hs as [Hs Hrl]. simpl.
  apply coalesce_into_settled; [|done].
  eapply Forall_impl; [exact Hrl|]. unfold key_le. simpl. intros; lia.
Qed.

Lemma merge_metadata_settled_witness :
  let a := Some {| version := "1.1";
                   ranges := [Range 0 10 "manual" (PFloat noon)] |} in
  let b := Some {| version := "1.1";
                   ranges := [Range 4 12 "manual" (PFloat noon);
                              Range 12 20 "pasted" (PFloat noon)] |} in
  let x := Range 0 12 "manual" (PFloat noon) in
  let y := Range 12 20 "pasted" (PFloat noon) in
  ranges (merge_metadata init a b) = [x; y]
  /\ start x <= start y /\ (source x <> source y \/ end_ x < start y).
Proof.
  split; [reflexivity|].
  apply (merge_metadata_settled init
           (Some {| version := "1.1";
                    ranges := [Range 0 10 "manual" (PFloat noon)] |})
           (Some {| version := "1.1";
                    ranges := [Range 4 12 "manual" (PFloat noon);
                               Range 12 20 "pasted" (PFloat noon)] |})
           0%nat); reflexivity.
Defined.

(** X11. Merging a merge result with nothing gives the same ranges
    again: the result needs no second pass. *)
Theorem merge_metadata_idempotent (self : MetadataManager)
  (metadata1 metadata2 : option metadata) :
  merge_metadata self (Some (merge_metadata self metadata1 metadata2)) None
  = merge_metadata self metadata1 metadata2
  /\ merge_metadata self None (Some (merge_metadata self metadata1 metadata2))
     = merge_metadata self metadata1 metadata2.
Proof.
  assert (settled (ranges (merge_metadata self metadata1 metadata2))) as Hl.
  { rewrite merge_metadata_ranges.
    pose proof (sort_sorted start
                  (given_ranges metadata1 ++ given_ranges metadata2)) as Hs.
    destruct (sort start _) as [|r l]; [done|].
    apply StronglySorted_inv in Hs as [Hs Hrl]. simpl.
    apply coalesce_into_settled; [|done].
    eapply Forall_impl; [exact Hrl|]. unfold key_le. simpl. intros; lia. }
  assert (forall l, settled l -> coalesce (sort start l) = l) as Hfix.
  { intros l Hs. rewrite settled_sorted by done.
    destruct l as [|x l]; [done|]. by apply settled_coalesce_into. }
  set (m := merge_metadata self metadata1 metadata2) in *.
  assert (forall m', ranges m' = ranges m -> version m' = version m -> m' = m)
    as Hext.
  { intros [v' r'] Hr Hv. destruct m as [v r]. simpl in *. by subst. }
  split; apply Hext; try done; rewrite merge_metadata_ranges; simpl;
    rewrite ?app_nil_r; by apply Hfix.
Qed.

(** *** What the validator accepts *)

Lemma validate_range_passes range_info :
  validate_range range_info = true <-> passes_validation range_info.
Proof.
  split.
  - unfold validate_range, dict_has. destruct range_info as [| | | | |l|d]; try done.
    simpl.
    destruct (dict_get "start" d) as [vs|] eqn:Hvs; [|done].
    destruct (dict_get "end" d) as [ve|] eqn:Hve; [|done].
    destruct (dict_get "source" d) as [vsrc|] eqn:Hvsrc; [|done]. simpl.
    destruct (as_int vs) as [s|] eqn:Hs; [|done].
    destruct (as_int ve) as [e|] eqn:He; [|done].
    destruct vsrc as [| | | |src| |]; try done.
    destruct (Z.ltb_spec s 0); [done|].
    destruct (Z.ltb_spec e 0); [done|]. simpl.
    destruct (Z.geb_spec s e); [done|].
    destruct (String.eqb_spec src "manual") as [->|Hm]; simpl.
    { intros _. exists d, vs, ve, "manual", s, e.
      repeat (split; [first [done|lia]|]). by left. }
    destruct (String.eqb_spec src "pasted") as [->|Hp]; simpl; [|done].
    intros _. exists d, vs, ve, "pasted", s, e.
    repeat (split; [first [done|lia]|]). by right.
  - intros (d & vs & ve & src & s & e & -> & Hvs & Hs & Hve & He & Hsrc
            & ? & ? & Hm).
    unfold validate_range, dict_has. simpl.
    rewrite Hvs, Hve, Hsrc. simpl. rewrite Hs, He.
    destruct (Z.ltb_spec s 0), (Z.ltb_spec e 0), (Z.geb_spec s e); try lia.
    simpl. by destruct Hm as [-> | ->].
Qed.

(** X12. The validator accepts a value exactly when it is a dictionary
    whose ['ranges'] is a list of dictionaries, each with an integer or
    a boolean under ['start'] and ['end'], the first at least 0 and
    smaller than the second, and ['manual'] or ['pasted'] under
    ['source']. Nothing else is looked at. *)
Theorem validate_metadata_accepts (metadata : val) :
  validate_metadata metadata = true
  <-> exists d l,
        metadata = PDict d
        /\ dict_get "ranges" d = Some (PList l)
        /\ Forall passes_validation l.
Proof.
  split.
  - unfold validate_metadata.
    destruct metadata as [| | | | |l|d]; try done.
    destruct (dict_get "ranges" d) as [[| | | | |l|]|] eqn:Hd; try done.
    intros Hl. exists d, l. split; [done|]. split; [done|].
    apply Forall_forall. intros x Hx. apply validate_range_passes.
    rewrite forallb_forall in Hl. by apply Hl, list_elem_of_In.
  - intros (d & l & -> & Hd & Hl). unfold validate_metadata. rewrite Hd.
    apply forallb_forall. intros x Hx. apply validate_range_passes.
    rewrite Forall_forall in Hl. by apply Hl, list_elem_of_In.
Qed.

(** A range from [False] to [True] passes. *)
Example validate_accepts_booleans :
  validate_metadata
    (PDict [("ranges",
             PList [PDict [("start", PBool false); ("end", PBool true);
                           ("source", PStr "manual")]])])
  = true.
Proof. reflexivity. Qed.

End merging.

(** ** Export and import of the tracker's ranges *)

Section export_import.
Import py text_tracker text_tracker_api metadata_manager.

Lemma load_range_to_py now r : load_range now (range_to_py r) = Some r.
Proof. by destruct r. Qed.

Lemma load_ranges_to_py clock i l :
  load_ranges clock i (map range_to_py l) = Some l.
Proof.
  revert i. induction l as [|r l IH]; intros i; [done|].
  cbn [map load_ranges]. by rewrite load_range_to_py, IH.
Qed.

Lemma load_get_metadata_sorted t0 t clock :
  load_metadata t0 (metadata_to_py (get_metadata t)) clock
  = Some {| text_widget := text_widget t0;
            input_ranges := sort start (input_ranges t) |}.
Proof.
  unfold load_metadata, metadata_to_py, get_metadata.
  cbn -[load_ranges sort]. by rewrite load_ranges_to_py.
Qed.

Lemma chain_sort lo l : chain lo l -> sort start l = l.
Proof.
  revert lo. induction l as [|x l IH]; intros lo; [done|].
  intros (_ & Hx & Hl). simpl. rewrite (IH _ Hl).
  destruct l as [|y l]; [done|]. simpl. destruct Hl as (Hy & _).
  destruct (Z.leb_spec (start x) (start y)); [done|lia].
Qed.

(** X13. Loading what [get_metadata] exported from separated ranges
    gives those ranges back, in any tracker. Ranges that are not sorted
    come back sorted by start. *)
Theorem load_get_metadata (t0 t : TextTracker) (clock : nat -> float) :
  separated (input_ranges t) ->
  load_metadata t0 (metadata_to_py (get_metadata t)) clock
  = Some {| text_widget := text_widget t0; input_ranges := input_ranges t |}.
Proof.
  intros [lo Hc]. rewrite load_get_metadata_sorted.
  by rewrite (chain_sort _ _ Hc).
Qed.

Lemma load_get_metadata_witness :
  let t := {| text_widget := Some "hello!";
              input_ranges := [Range 0 5 "manual" (PFloat noon);
                               Range 5 6 "pasted" (PFloat noon)] |} in
  separated (input_ranges t)
  /\ load_metadata text_tracker.init (metadata_to_py (get_metadata t)) (fun _ => noon)
     = Some {| text_widget := None; input_ranges := input_ranges t |}.
Proof.
  assert (separated [Range 0 5 "manual" (PFloat noon);
                     Range 5 6 "pasted" (PFloat noon)]) as Hsep.
  { exists 0. simpl. lia. }
  split; [exact Hsep|].
  exact (load_get_metadata text_tracker.init
           {| text_widget := Some "hello!";
              input_ranges := [Range 0 5 "manual" (PFloat noon);
                               Range 5 6 "pasted" (PFloat noon)] |}
           (fun _ => noon) Hsep).
Defined.

(** *** What a tracker run exports *)

Lemma pos_to_index_nonneg text_content pos :
  position_nonneg pos -> 0 <= _pos_to_index text_content pos.
Proof.
  destruct pos as [line col| |i]; simpl; [|done..]. intros Hcol.
  set (lines := split "010" text_content).
  assert (forall l acc, 0 <= acc ->
            0 <= foldl (fun index i =>
                          match lines !! i with
                          | Some l => index + (str_len l + 1)
                          | None => index
                          end) acc l) as Hsum.
  { induction l as [|i l IH]; intros acc Hacc; [done|]. simpl. apply IH.
    destruct (lines !! i); [|done]. unfold str_len. lia. }
  specialize (Hsum (seq 0 (Z.to_nat (line - 1))) 0 ltac:(lia)).
  destruct (line - 1 <? len lines).
  - destruct (index lines (line - 1)); [|done]. unfold str_len in *. lia.
  - lia.
Qed.

Lemma chain_from_zero lo l :
  chain lo l -> Forall (fun r => 0 <= start r) l -> chain 0 l.
Proof.
  destruct l as [|r l]; [done|]. intros (_ & Hr & Hl) Hall.
  apply Forall_cons_1 in Hall as [H0 _]. by repeat split.
Qed.

(** What an insertion keeps true of every range: its start is not
    negative, it is typed or pasted, and its time stamp can be written. *)
Lemma update_ranges_Forall current_length l start_idx end_idx src now :
  let ok := fun r => 0 <= start r
                     /\ (source r = "manual" \/ source r = "pasted")
                     /\ json.jsonable (timestamp r) = true in
  0 <= start_idx <= end_idx ->
  src = "manual" \/ src = "pasted" ->
  json.float_literal now = true ->
  Forall ok l ->
  Forall ok (_update_ranges current_length l start_idx end_idx src now).
Proof.
  intros ok Hidx Hsrc Hnow Hl. unfold _update_ranges.
  assert (forall acc rs, Forall ok (acc ++ rs) ->
            Forall ok (foldl coalesce_step acc rs)) as Hco.
  { intros acc rs. revert acc.
    induction rs as [|r rs IH]; intros acc Hall; simpl.
    { by rewrite app_nil_r in Hall. }
    apply IH. unfold coalesce_step.
    destruct (last acc) as [m|] eqn:Hlast; [|by rewrite <- app_assoc].
    destruct (_ && _); [|by rewrite <- app_assoc].
    apply last_Some in Hlast as [acc' ->]. rewrite set_last_snoc.
    rewrite <- !app_assoc in *. simpl in *.
    apply Forall_app in Hall as [Hacc Hall].
    apply Forall_cons_1 in Hall as [Hm Hall].
    apply Forall_cons_1 in Hall as [Hr Hall].
    apply Forall_app. split; [done|]. by apply Forall_cons_2. }
  apply Hco. simpl.
  eapply Permutation_Forall; [symmetry; apply (sort_Permutation start)|].
  rewrite (foldl_append _ (shift_step start_idx end_idx []))
    by apply shift_step_append.
  simpl. apply Forall_app. split.
  - rewrite handle_deletions_flat_map. apply Forall_forall. intros a Ha.
    apply list_elem_of_In, in_flat_map in Ha as (r & Hr & Ha).
    apply in_flat_map in Hr as (r0 & Hr0 & Hr).
    rewrite Forall_forall in Hl.
    specialize (Hl r0 (proj2 (list_elem_of_In _ _) Hr0)).
    assert (ok r) as Hokr.
    { unfold kept in Hr. repeat case_match; simpl in Hr; try done.
      destruct Hr as [<-|[]]. by destruct r0. }
    clear Hr Hl Hr0. unfold shift_step in Ha. unfold ok in *.
    destruct (Z.leb_spec (end_ r) start_idx); simpl in Ha.
    { by destruct Ha as [<-|[]]. }
    destruct (Z.geb_spec (start r) start_idx); simpl in Ha.
    { destruct Ha as [<-|[]]. simpl. split; [lia|tauto]. }
    destruct (Z.ltb_spec (start r) start_idx); [|lia].
    destruct (Z.gtb_spec (end_ r) start_idx); [|lia]. simpl in Ha.
    destruct Ha as [<-|[<-|[]]]; simpl; (split; [lia|tauto]).
  - apply Forall_cons_2; [|apply Forall_nil_2]. unfold ok. simpl.
    split; [lia|]. by split.
Qed.

Lemma step_savable t e :
  well_formed_event e ->
  savable (input_ranges t) -> savable (input_ranges (step t e)).
Proof.
  assert (forall text, text <> "" -> 0 < str_len text) as Hpos.
  { intros [|c s] ?; [done|]. unfold str_len. simpl. lia. }
  assert (forall text_content pos text src now,
            position_nonneg pos -> text <> "" ->
            src = "manual" \/ src = "pasted" ->
            json.float_literal now = true ->
            savable (input_ranges t) ->
            savable (input_ranges (track t text_content pos text src now)))
    as Htrack.
  { intros text_content pos text src now Hp Htext Hsrc Hnow [[Hc Hs] Hts].
    simpl.
    pose proof (pos_to_index_nonneg text_content pos Hp) as Hp0.
    specialize (Hpos text Htext).
    set (p := _pos_to_index text_content pos) in *.
    assert (Forall (fun r => 0 <= start r
                             /\ (source r = "manual" \/ source r = "pasted")
                             /\ json.jsonable (timestamp r) = true)
              (_update_ranges (str_len text_content) (input_ranges t)
                 p (p + str_len text) src now)) as Hall.
    { apply update_ranges_Forall; [lia|done..|].
      apply Forall_forall. intros r Hr. rewrite Forall_forall in Hs, Hts.
      split; [|by split; [apply Hs|apply Hts]].
      pose proof (chain_after _ _ Hc) as Hafter.
      rewrite Forall_forall in Hafter. by apply Hafter. }
    destruct (update_ranges_separated (str_len text_content) (input_ranges t)
                p (p + str_len text) src now) as [lo Hlo];
      [lia|by exists 0|].
    repeat split.
    - eapply chain_from_zero; [exact Hlo|].
      eapply Forall_impl; [exact Hall|]. simpl. tauto.
    - eapply Forall_impl; [exact Hall|]. simpl. tauto.
    - eapply Forall_impl; [exact Hall|]. simpl. tauto. }
  intros He Ht.
  destruct e as [content|pos character now|pos content now]; simpl.
  - by destruct (text_widget t).
  - destruct He as (Hp & Hch & Hnow). unfold track_manual_input.
    destruct (text_widget t) as [text_content|]; [|done].
    apply Htrack; try done. by left.
  - destruct He as (Hp & Hnow). unfold track_paste_input.
    destruct (text_widget t) as [text_content|]; [|done].
    destruct (String.eqb_spec content ""); [done|].
    apply Htrack; try done. by right.
Qed.

Lemma run_savable events t :
  Forall well_formed_event events ->
  savable (input_ranges t) -> savable (input_ranges (run t events)).
Proof.
  revert t. induction events as [|e events IH]; intros t He Ht; [done|].
  apply Forall_cons_1 in He as [He Hes]. simpl. apply IH; [done|].
  by apply step_savable.
Qed.

Lemma savable_validates l :
  savable l ->
  validate_metadata (metadata_to_py {| version := "1.1"; ranges := l |}) = true
  /\ json.jsonable (metadata_to_py {| version := "1.1"; ranges := l |}) = true.
Proof.
  intros [[Hc Hs] Hts]. split.
  - unfold validate_metadata, metadata_to_py. simpl.
    apply forallb_forall. intros x Hx.
    apply in_map_iff in Hx as (r & <- & Hr).
    apply list_elem_of_In in Hr.
    pose proof (chain_after _ _ Hc) as Hafter.
    rewrite Forall_forall in Hafter, Hs.
    specialize (Hafter r Hr). specialize (Hs r Hr). simpl in Hafter.
    apply validate_range_valid, range_to_py_valid; (done || lia).
  - by apply jsonable_metadata.
Qed.

(** X14. What a tracker exports after a run of well-formed events from
    savable ranges (from none, for one) passes the validator and can be
    written by the encoder; the ranges are again a Provenance Set. So
    saving never drops the metadata of such a run as invalid. *)
Theorem run_exports_valid_metadata (t : TextTracker) (events : list event) :
  savable (input_ranges t) ->
  Forall well_formed_event events ->
  validate_metadata (metadata_to_py (get_metadata (run t events))) = true
  /\ json.jsonable (metadata_to_py (get_metadata (run t events))) = true
  /\ provenance_set (input_ranges (run t events)).
Proof.
  intros Ht He. pose proof (run_savable events t He Ht) as Hrun.
  destruct (savable_validates _ Hrun) as [Hv Hj].
  split; [exact Hv|]. split; [exact Hj|]. by destruct Hrun.
Qed.

Lemma run_exports_valid_metadata_witness :
  let t := set_text_widget text_tracker.init "hello!" in
  let events := [TrackManual (Offset 0) "hello" noon;
                 TrackPaste (Offset 5) "!" noon] in
  validate_metadata (metadata_to_py (get_metadata (run t events))) = true
  /\ json.jsonable (metadata_to_py (get_metadata (run t events))) = true
  /\ provenance_set (input_ranges (run t events)).
Proof.
  apply (run_exports_valid_metadata (set_text_widget text_tracker.init "hello!")
           [TrackManual (Offset 0) "hello" noon;
            TrackPaste (Offset 5) "!" noon]).
  - repeat split; simpl; (done || apply Forall_nil_2).
  - apply Forall_cons_2; [|apply Forall_cons_2; [|apply Forall_nil_2]];
      simpl; repeat split; (done || lia).
Defined.

End export_import.

(** ** File names *)

Section file_names.
Import py file_manager.

Lemma substring_append_r a b n :
  String.substring (String.length a) n (a +:+ b) = String.substring 0 n b.
Proof. induction a as [|c a IH]; [done|]. simpl. apply IH. Qed.

Lemma substring_full b : String.substring 0 (String.length b) b = b.
Proof. induction b as [|c b IH]; [done|]. simpl. by rewrite IH. Qed.


Lemma endswith_append s suffix : endswith (s +:+ suffix) suffix = true.
Proof.
  unfold endswith. rewrite append_length.
  replace (String.length s + String.length suffix - String.length suffix)%nat
    with (String.length s) by lia.
  rewrite substring_append_r, substring_full, String.eqb_refl.
  rewrite andb_true_r. apply Nat.leb_le. lia.
Qed.

Lemma split_nonempty sep s : exists w ws, split sep s = w :: ws.
Proof.
  induction s as [|c s (w & ws & IH)]; simpl; [by eauto|].
  destruct (Ascii.eqb c sep); [by eauto|]. rewrite IH. by eauto.
Qed.




(** X15. The suggested name is always a [.lakra] name, a name that is
    one already is suggested as it is (so suggesting twice changes
    nothing), and a name has a base format exactly when it is a
    [.lakra] name. *)
Theorem suggest_lakra_filename_is_lakra (original_path : string) :
  is_lakra_file (suggest_lakra_filename original_path) = true
  /\ suggest_lakra_filename (suggest_lakra_filename original_path)
     = suggest_lakra_filename original_path
  /\ (get_base_format original_path = None
      <-> is_lakra_file original_path = false).
Proof.
  assert (is_lakra_file (suggest_lakra_filename original_path) = true) as H.
  { unfold suggest_lakra_filename.
    destruct (is_lakra_file original_path) eqn:Hl; [done|].
    apply endswith_append. }
  split; [done|]. split.
  - unfold suggest_lakra_filename at 1. by rewrite H.
  - unfold get_base_format.
    destruct (is_lakra_file original_path); simpl; [|done].
    destruct (String.index 0 "." _); [|done].
    destruct (split_nonempty "." (slice_to_z original_path (-6)))
      as (w & ws & ->).
    by destruct (last_is_Some (w :: ws)) as [_ [x ->]].
Qed.



(** A dot in a directory name is taken for the one before the
    extension. *)
Example get_base_format_directory_dot :
  get_base_format "my.docs/notes.lakra" = Some "docs/notes".
Proof. reflexivity. Qed.

End file_names.

(** ** Character offsets and Tk positions *)

Section positions.
Import py text_tracker text_tracker_api.

(** The lines of a prefix of a text are lines of the text, but for the
    last, which is the beginning of one. *)
Lemma split_prefix sep text (k : nat) :
  (k <= String.length text)%nat ->
  exists init lastp lastfull rest,
    split sep (String.substring 0 k text) = init ++ [lastp]
    /\ split sep text = init ++ lastfull :: rest
    /\ (String.length lastp <= String.length lastfull)%nat
    /\ lines_length init + str_len lastp = Z.of_nat k.
Proof.
  revert k. induction text as [|c s IH]; intros k Hk.
  { simpl in Hk. assert (k = 0%nat) as -> by lia.
    exists [], "", "", []. by repeat split. }
  destruct k as [|k].
  { destruct (split_nonempty sep (String c s)) as (w & ws & Hw).
    exists [], "", w, ws. simpl String.substring. rewrite Hw.
    repeat split; simpl; lia. }
  simpl in Hk.
  destruct (IH k ltac:(lia)) as (init & lastp & lastfull & rest
                                 & Hp & Hs & Hlen & Hsum).
  cbn [String.substring split]. rewrite Hp, Hs.
  destruct (Ascii.eqb c sep).
  - exists ("" :: init), lastp, lastfull, rest.
    repeat split; [done|]. cbn [lines_length]. unfold str_len in *.
    simpl String.length. lia.
  - destruct init as [|i0 init]; simpl.
    + exists [], (String c lastp), (String c lastfull), rest.
      repeat split; simpl; [lia|]. unfold str_len in *. simpl in *. lia.
    + exists (String c i0 :: init), lastp, lastfull, rest.
      repeat split; [done|]. cbn [lines_length] in *. unfold str_len in *.
      simpl String.length. lia.
Qed.

Lemma lines_loop (passed init tail : list string) acc :
  foldl (fun index i =>
           match (passed ++ init ++ tail) !! i with
           | Some l => index + (str_len l + 1)
           | None => index
           end) acc (seq (List.length passed) (List.length init))
  = acc + lines_length init.
Proof.
  revert passed acc. induction init as [|l init IH]; intros passed acc; simpl.
  { lia. }
  rewrite lookup_app_r by lia. rewrite Nat.sub_diag. simpl.
  replace (passed ++ l :: init ++ tail) with ((passed ++ [l]) ++ init ++ tail)
    by by rewrite <- app_assoc.
  replace (S (List.length passed)) with (List.length (passed ++ [l]))
    by (rewrite length_app; simpl; lia).
  rewrite IH. lia.
Qed.

(** X17. For an offset inside the text, or at its end, the Tk position
    that [_index_to_pos] gives is turned back into that offset by
    [_pos_to_index]. *)
Theorem index_to_pos_to_index (t : TextTracker) (text_content : string)
  (index : Z) :
  text_widget t = Some text_content ->
  0 <= index <= str_len text_content ->
  _pos_to_index text_content (_index_to_pos t index) = index.
Proof.
  intros Hw Hidx. unfold _index_to_pos. rewrite Hw.
  assert ((if index >=? str_len text_content
           then split "010" text_content
           else split "010" (slice_to_z text_content index))
          = split "010" (String.substring 0 (Z.to_nat index) text_content))
    as ->.
  { destruct (Z.geb_spec index (str_len text_content)).
    - assert (index = str_len text_content) as -> by lia.
      unfold str_len. by rewrite Nat2Z.id, substring_full.
    - unfold slice_to_z, slice_to.
      by destruct (Z.leb_spec 0 index); [|lia]. }
  destruct (split_prefix "010" text_content (Z.to_nat index))
    as (init & lastp & lastfull & rest & Hp & Hs & Hlen & Hsum).
  { unfold str_len in Hidx. lia. }
  rewrite Hp, last_snoc. unfold _pos_to_index. rewrite Hs.
  unfold len. rewrite !length_app. simpl List.length.
  replace (Z.of_nat (List.length init + 1) - 1)
    with (Z.of_nat (List.length init)) by lia.
  rewrite Nat2Z.id.
  pose proof (lines_loop [] init (lastfull :: rest) 0) as Hloop.
  simpl in Hloop. rewrite Hloop.
  destruct (Z.ltb_spec (Z.of_nat (List.length init))
              (Z.of_nat (List.length init + S (List.length rest))));
    [|lia].
  unfold py.index.
  destruct (Z.leb_spec 0 (Z.of_nat (List.length init))); [|lia].
  rewrite Nat2Z.id, lookup_app_r by lia. rewrite Nat.sub_diag. simpl.
  unfold str_len in *. lia.
Qed.

Lemma index_to_pos_to_index_witness :
  let t := set_text_widget init (String "a" (String "b" (String "010" "cd")))
  in
  _index_to_pos t 4 = TkIndex 2 1
  /\ _pos_to_index (String "a" (String "b" (String "010" "cd")))
       (_index_to_pos t 4) = 4.
Proof.
  split; [reflexivity|].
  apply (index_to_pos_to_index
           (set_text_widget init
              (String "a" (String "b" (String "010" "cd"))))
           (String "a" (String "b" (String "010" "cd"))) 4 eq_refl).
  unfold str_len. simpl. lia.
Defined.

End positions.

(** ** Saving and opening a document *)

Section save_open.
Import py metadata_manager file_manager.

(** *** Characters and occurrences *)










(** *** White space at the ends *)





(** *** Reading a written file *)




(** A content that holds the start delimiter is cut there when the file
    is read. *)
Example create_parse_delimiter_in_content :
  _parse_lakra_content
    (_create_lakra_content init ("see " +:+ metadata_start +:+ " here")
       (metadata_to_py hello_set) noon)
  = Ok ("see", PNone).
Proof. vm_compute. reflexivity. Qed.

(** *** What the encoder never writes *)










End save_open.

(** *** From the tracker to the file and back *)

Section editor.
Import py text_tracker text_tracker_api metadata_manager file_manager.






End editor.

(** ** What the statistics count *)

Section counting.
Import py text_tracker text_tracker_api metadata_manager.

Lemma filter_ext_in {A} (f g : A -> bool) (l : list A) :
  (forall x, x ∈ l -> f x = g x) -> List.filter f l = List.filter g l.
Proof.
  induction l as [|x l IH]; intros H; [done|]. simpl.
  rewrite (H x) by by left. rewrite IH; [done|].
  intros y Hy. apply H. by right.
Qed.

Lemma filter_all {A} (f : A -> bool) (l : list A) :
  (forall x, x ∈ l -> f x = true) -> List.filter f l = l.
Proof.
  induction l as [|x l IH]; intros H; [done|]. simpl.
  rewrite (H x) by by left. rewrite IH; [done|].
  intros y Hy. apply H. by right.
Qed.

Lemma filter_none {A} (f : A -> bool) (l : list A) :
  (forall x, x ∈ l -> f x = false) -> List.filter f l = [].
Proof.
  induction l as [|x l IH]; intros H; [done|]. simpl.
  rewrite (H x) by by left. apply IH. intros y Hy. apply H. by right.
Qed.

Lemma source_at_before lo l index :
  chain lo l -> index < lo -> source_at l index = None.
Proof.
  intros Hc Hi. unfold source_at.
  destruct (List.find _ l) as [r|] eqn:Hfind; [|done].
  apply find_some in Hfind as [Hin Hr].
  pose proof (chain_after _ _ Hc) as Hall. rewrite Forall_forall in Hall.
  specialize (Hall r (proj2 (list_elem_of_In _ _) Hin)). simpl in Hall. lia.
Qed.

Lemma characters_with_chain src lo hi l :
  chain lo l -> Forall (fun r => end_ r <= hi) l -> lo <= hi ->
  characters_with l src lo hi
  = (if same_source None src then (hi - lo) - length_sum l else 0)
    + weight src l.
Proof.
  unfold characters_with, len.
  revert lo. induction l as [|r l IH]; intros lo Hc Hhi Hlo.
  { cbn [length_sum weight]. destruct (same_source None src) eqn:Hn.
    - rewrite filter_all; [|done]. rewrite length_seqZ. lia.
    - rewrite filter_none; [simpl; lia|done]. }
  destruct Hc as (Hr0 & Hr & Hc). apply Forall_cons_1 in Hhi as [Hrhi Hhi].
  pose proof (chain_after _ _ Hc) as Hafter. rewrite Forall_forall in Hafter.
  replace (hi - lo)
    with ((start r - lo) + ((end_ r - start r) + (hi - end_ r))) by lia.
  rewrite seqZ_app by lia. rewrite seqZ_app by lia.
  rewrite !List.filter_app, !length_app.
  replace (lo + (start r - lo)) with (start r) by lia.
  replace (start r + (end_ r - start r)) with (end_ r) by lia.
  (* behind the range *)
  rewrite (filter_ext_in _
             (fun index => same_source (source_at l index) src)
             (seqZ (end_ r) (hi - end_ r))).
  2:{ intros x Hx%elem_of_seqZ. unfold source_at. simpl.
      destruct (Z.leb_spec (start r) x), (Z.ltb_spec x (end_ r)); simpl;
        (done || lia). }
  specialize (IH (end_ r) Hc Hhi Hrhi). rewrite Nat2Z.inj_add, Nat2Z.inj_add, IH.
  cbn [length_sum weight].
  assert (forall x, x ∈ seqZ (start r) (end_ r - start r) ->
            source_at (r :: l) x = Some (source r)) as Hin.
  { intros x Hx%elem_of_seqZ. unfold source_at. simpl.
    destruct (Z.leb_spec (start r) x), (Z.ltb_spec x (end_ r)); simpl;
      (done || lia). }
  assert (forall x, x ∈ seqZ lo (start r - lo) ->
            source_at (r :: l) x = None) as Hbefore.
  { intros x Hx%elem_of_seqZ.
    apply (source_at_before (start r)); [|lia].
    simpl. repeat split; (done || lia). }
  destruct (same_source None src) eqn:Hn;
    destruct (same_source (Some (source r)) src) eqn:Hs.
  - by destruct src.
  - rewrite (filter_all _ (seqZ lo _)), (filter_none _ (seqZ (start r) _)).
    + rewrite length_seqZ. simpl. lia.
    + intros x Hx. rewrite (Hin x Hx). by rewrite Hs.
    + intros x Hx. rewrite (Hbefore x Hx). by rewrite Hn.
  - rewrite (filter_none _ (seqZ lo _)), (filter_all _ (seqZ (start r) _)).
    + rewrite length_seqZ. simpl. lia.
    + intros x Hx. rewrite (Hin x Hx). by rewrite Hs.
    + intros x Hx. rewrite (Hbefore x Hx). by rewrite Hn.
  - rewrite (filter_none _ (seqZ lo _)), (filter_none _ (seqZ (start r) _)).
    + simpl. lia.
    + intros x Hx. rewrite (Hin x Hx). by rewrite Hs.
    + intros x Hx. rewrite (Hbefore x Hx). by rewrite Hn.
Qed.

Lemma weight_source src l : weight (Some src) l = length_sum_of src l.
Proof. induction l as [|r l IH]; [done|]. simpl. by rewrite IH. Qed.

Lemma weight_none l : weight None l = 0.
Proof. induction l as [|r l IH]; [done|]. simpl. by rewrite IH. Qed.

(** X20. For a Provenance Set inside a buffer of [total_length]
    characters, the statistics count characters: [typed_chars] is the
    number of characters of the buffer for which the source query
    answers ['manual'], [pasted_chars] the number for which it answers
    ['pasted'], and [unknown_chars] the number for which it has no
    answer. *)
Theorem get_stats_counts_characters (m : metadata) (total_length : Z) :
  provenance_set (ranges m) ->
  Forall (fun r => end_ r <= total_length) (ranges m) ->
  0 <= total_length ->
  typed_chars (get_stats (Some m) total_length)
  = characters_with (ranges m) (Some "manual") 0 total_length
  /\ pasted_chars (get_stats (Some m) total_length)
     = characters_with (ranges m) (Some "pasted") 0 total_length
  /\ unknown_chars (get_stats (Some m) total_length)
     = characters_with (ranges m) None 0 total_length.
Proof.
  intros [Hc Hs] Hin Htotal. simpl.
  destruct (stats_loop (ranges m) (Counters 0 0 0 0 0)) as (Ht & Hm & Hp).
  rewrite Ht, Hm, Hp.
  rewrite !(characters_with_chain _ 0 total_length (ranges m)) by done.
  rewrite !weight_source, weight_none. simpl.
  pose proof (length_sum_chain _ _ _ Hc Hin Htotal). lia.
Qed.

Lemma get_stats_counts_characters_witness :
  typed_chars (get_stats (Some hello_set) 8)
  = characters_with (ranges hello_set) (Some "manual") 0 8
  /\ pasted_chars (get_stats (Some hello_set) 8)
     = characters_with (ranges hello_set) (Some "pasted") 0 8
  /\ unknown_chars (get_stats (Some hello_set) 8)
     = characters_with (ranges hello_set) None 0 8.
Proof.
  apply (get_stats_counts_characters hello_set 8).
  - split; [simpl; lia|].
    apply Forall_cons_2; [by left|].
    apply Forall_cons_2; [by right|apply Forall_nil_2].
  - apply Forall_cons_2; [simpl; lia|].
    apply Forall_cons_2; [simpl; lia|apply Forall_nil_2].
  - lia.
Defined.

End counting.

(** ** More of the codec *)

Section legacy.
Import py metadata_manager.

(** X21. Text written for a dictionary without the envelope, as older
    files hold it, decodes to that dictionary when it has ['ranges'],
    and to no metadata when it has not. *)
Theorem deserialize_bare_dictionary (d : list (string * val)) :
  dict_has "ghostkey_metadata" d = false ->
  json.jsonable (PDict d) = true ->
  deserialize_metadata (json.dumps (PDict d))
  = Ok (if dict_has "ranges" d then PDict d else PNone).
Proof.
  intros Henv Hj.
  rewrite (deserialize_parsed _ (PDict d)) by by apply loads_dumps.
  simpl. rewrite Henv. simpl. by destruct (dict_has "ranges" d).
Qed.

Lemma deserialize_bare_dictionary_witness :
  deserialize_metadata (json.dumps (metadata_to_py hello_set))
  = Ok (metadata_to_py hello_set).
Proof.
  apply (deserialize_bare_dictionary
           [("version", PStr (version hello_set));
            ("ranges", PList (map range_to_py (ranges hello_set)))]);
    reflexivity.
Defined.

(** *** Merging valid sets *)

Lemma validate_metadata_to_py m :
  validate_metadata (metadata_to_py m) = true
  <-> Forall (fun r => 0 <= start r /\ start r < end_ r
                       /\ (source r = "manual" \/ source r = "pasted"))
             (ranges m).
Proof.
  unfold validate_metadata, metadata_to_py. simpl.
  rewrite forallb_forall, Forall_forall. split.
  - intros H r Hr.
    specialize (H (range_to_py r)
                  (in_map range_to_py _ _ (proj1 (list_elem_of_In _ _) Hr))).
    apply validate_range_passes in H
      as (d & vs & ve & src & s & e & Hd & Hvs & Hs & Hve & He & Hsrc
          & ? & ? & ?).
    injection Hd as <-. simpl in *.
    injection Hvs as <-. injection Hve as <-. injection Hsrc as <-.
    simpl in *. injection Hs as <-. injection He as <-. done.
  - intros H x Hx. apply in_map_iff in Hx as (r & <- & Hr).
    apply list_elem_of_In in Hr. destruct (H r Hr) as (? & ? & ?).
    apply validate_range_valid, range_to_py_valid; done.
Qed.

Lemma coalesce_into_Forall (P : range -> Prop) prev l :
  (forall m r, P m -> P r -> source m = source r -> start r <= end_ m ->
               P (set_end m (Z.max (end_ m) (end_ r)))) ->
  P prev -> Forall P l -> Forall P (coalesce_into prev l).
Proof.
  intros Hjoin. revert prev.
  induction l as [|r l IH]; intros prev Hprev Hl; simpl.
  { by apply Forall_cons_2. }
  apply Forall_cons_1 in Hl as [Hr Hl].
  destruct (String.eqb_spec (source prev) (source r)) as [Hsrc|Hsrc]; simpl.
  - destruct (Z.leb_spec (start r) (end_ prev)).
    + apply IH; [|done]. by apply Hjoin.
    + apply Forall_cons_2; [done|]. by apply IH.
  - apply Forall_cons_2; [done|]. by apply IH.
Qed.

(** X22. Merging two sets that each pass the validator gives a set that
    passes the validator. *)
Theorem merge_metadata_valid (self : MetadataManager) (a b : metadata) :
  validate_metadata (metadata_to_py a) = true ->
  validate_metadata (metadata_to_py b) = true ->
  validate_metadata (metadata_to_py (merge_metadata self (Some a) (Some b)))
  = true.
Proof.
  rewrite !validate_metadata_to_py. intros Ha Hb.
  rewrite merge_metadata_ranges. simpl.
  assert (Forall (fun r => 0 <= start r /\ start r < end_ r
                           /\ (source r = "manual" \/ source r = "pasted"))
            (sort start (ranges a ++ ranges b))) as Hall.
  { eapply Permutation_Forall; [symmetry; apply (sort_Permutation start)|].
    by apply Forall_app. }
  destruct (sort start (ranges a ++ ranges b)) as [|r l]; [done|].
  apply Forall_cons_1 in Hall as [Hr Hl]. simpl.
  apply coalesce_into_Forall; [|done..].
  intros m x (? & ? & ?) (? & ? & ?) _ _. destruct m. simpl in *.
  repeat split; (done || lia).
Qed.

Lemma merge_metadata_valid_witness :
  validate_metadata
    (metadata_to_py (merge_metadata init (Some hello_set) (Some hello_set)))
  = true.
Proof.
  apply (merge_metadata_valid init hello_set hello_set); reflexivity.
Defined.

End legacy.

(** ** The tracker's ranges are as long as they can be *)

Section maximal.
Import py text_tracker text_tracker_api.

Lemma coalesced_snoc l m r :
  coalesced ((l ++ [m]) ++ [r])
  <-> coalesced (l ++ [m]) /\ (source m <> source r \/ end_ m <> start r).
Proof.
  induction l as [|x l IH]; simpl; [tauto|].
  destruct l as [|y l]; simpl in *; [tauto|]. tauto.
Qed.






(** *** Typing at the end *)

Lemma coalesce_loop_fixed acc l :
  coalesced (acc ++ l) -> foldl coalesce_step acc l = acc ++ l.
Proof.
  revert acc. induction l as [|r l IH]; intros acc Hc; simpl.
  { by rewrite app_nil_r. }
  replace (acc ++ r :: l) with ((acc ++ [r]) ++ l) in *
    by by rewrite <- app_assoc.
  assert (coalesce_step acc r = acc ++ [r]) as ->; [|by apply IH].
  unfold coalesce_step. destruct (last acc) as [m|] eqn:Hlast; [|done].
  apply last_Some in Hlast as [acc' ->].
  assert (coalesced ((acc' ++ [m]) ++ [r])) as Hmr.
  { clear -Hc. revert Hc. generalize ((acc' ++ [m]) ++ [r]).
    intros k. induction k as [|x k IHk]; simpl; [done|].
    destruct k as [|y k]; simpl in *; [tauto|]. tauto. }
  apply coalesced_snoc in Hmr as [_ Hmr].
  destruct (String.eqb_spec (source m) (source r)) as [Hsrc|Hsrc]; [|done].
  destruct (Z.eqb_spec (end_ m) (start r)) as [Hend|Hend]; [|done].
  by destruct Hmr.
Qed.

Lemma shift_loop_before start_idx end_idx l :
  Forall (fun r => end_ r <= start_idx) l ->
  foldl (shift_step start_idx end_idx) [] l = l.
Proof.
  intros Hl.
  rewrite (foldl_append _ (shift_step start_idx end_idx []))
    by apply shift_step_append.
  simpl. induction Hl as [|r l Hr _ IH]; [done|]. simpl. rewrite IH.
  unfold shift_step. by destruct (Z.leb_spec (end_ r) start_idx); [|lia].
Qed.

(** X24. Typing or pasting at the end. When the ranges are separated and
    coalesced, lie inside the buffer and end at or before the insertion
    point, the insertion leaves them as they are and adds one range
    behind them; only when the last range has the inserted source and
    ends at the insertion point, that range is extended instead. *)
Theorem update_ranges_at_end (current_length : Z) (l : list range)
  (start_idx end_idx : Z) (src : string) (now : float) :
  separated l -> coalesced l ->
  Forall (fun r => end_ r <= current_length /\ end_ r <= start_idx) l ->
  start_idx < end_idx ->
  _update_ranges current_length l start_idx end_idx src now
  = match last l with
    | Some m =>
        if String.eqb (source m) src && (end_ m =? start_idx)
        then removelast l ++ [set_end m end_idx]
        else l ++ [Range start_idx end_idx src (PFloat now)]
    | None => [Range start_idx end_idx src (PFloat now)]
    end.
Proof.
  intros [lo Hc] Hco Hl Hlen. unfold _update_ranges.
  assert (_handle_deletions current_length l = l) as ->.
  { apply handle_deletions_inside. apply Forall_forall. intros r Hr.
    pose proof (chain_after _ _ Hc) as Hafter.
    rewrite Forall_forall in Hafter, Hl.
    specialize (Hafter r Hr). specialize (Hl r Hr). simpl in *. lia. }
  rewrite shift_loop_before
    by (eapply Forall_impl; [exact Hl|]; simpl; tauto).
  set (new := {| start := start_idx |}).
  assert (exists lo', chain lo' (l ++ [new])) as [lo' Hcn].
  { destruct (last l) as [m|] eqn:Hlast.
    - exists lo. apply chain_app. split; [done|]. rewrite Hlast.
      apply last_Some in Hlast as [l' ->].
      apply Forall_app in Hl as [_ [[_ Hm] _]%Forall_cons_1].
      unfold new. simpl. lia.
    - apply last_None in Hlast as ->. exists start_idx.
      unfold new. simpl. lia. }
  simpl. rewrite (chain_sort _ _ Hcn).
  destruct (last l) as [m|] eqn:Hlast.
  - apply last_Some in Hlast as [l' ->].
    rewrite removelast_last.
    rewrite (foldl_app _ (l' ++ [m]) [new]).
    rewrite (coalesce_loop_fixed [] (l' ++ [m])) by done.
    simpl. unfold coalesce_step. rewrite last_snoc. simpl.
    destruct (String.eqb (source m) src && (end_ m =? start_idx)); [|done].
    by rewrite set_last_snoc.
  - apply last_None in Hlast as ->. done.
Qed.

Lemma update_ranges_at_end_witness :
  let l := [Range 0 5 "manual" (PFloat noon)] in
  _update_ranges 8 l 5 8 "manual" noon = [Range 0 8 "manual" (PFloat noon)].
Proof.
  apply (update_ranges_at_end 8 [Range 0 5 "manual" (PFloat noon)]
           5 8 "manual" noon).
  - exists 0. simpl. lia.
  - simpl. tauto.
  - apply Forall_cons_2; [simpl; lia|apply Forall_nil_2].
  - lia.
Defined.

End maximal.

(** ** The counters of ranges *)

Section range_counters.
Import py metadata_manager.



End range_counters.

(** ** Reading any file *)

Section any_file.
Import py metadata_manager file_manager.



(** *** The encoded metadata is one line *)

Lemma all_chars_app p a b :
  all_chars p (a +:+ b) = all_chars p a && all_chars p b.
Proof.
  induction a as [|x a IH]; [done|]. simpl. by rewrite IH, andb_assoc.
Qed.

Lemma printable_uint d : all_chars printable (NilEmpty.string_of_uint d) = true.
Proof. induction d; simpl; done. Qed.

Lemma printable_sint i : all_chars printable (NilEmpty.string_of_int i) = true.
Proof. destruct i; simpl; apply printable_uint. Qed.

Lemma printable_float f : all_chars printable (json.dumps_float f) = true.
Proof.
  unfold json.dumps_float, json.dumps_sint.
  rewrite !all_chars_app, printable_sint.
  assert (all_chars printable (json.dumps_frac (f_frac f)) = true) as ->.
  { unfold json.dumps_frac, json.dumps_uint.
    destruct (f_frac f) eqn:Hf; [done|..]; rewrite <- Hf;
      change (all_chars printable (NilEmpty.string_of_uint (f_frac f)) = true);
      apply printable_uint. }
  unfold json.dumps_exp, json.dumps_uint.
  destruct (f_exp f) as [[d|d]|]; [..|done];
    rewrite all_chars_app; simpl; apply printable_uint.
Qed.

Lemma printable_escape_char c :
  all_chars printable (json.escape_char c) = true.
Proof. destruct c as [[] [] [] [] [] [] [] []]; reflexivity. Qed.

Lemma printable_escape s : all_chars printable (json.escape s) = true.
Proof.
  induction s as [|c s IH]; [done|]. simpl.
  by rewrite all_chars_app, printable_escape_char, IH.
Qed.

Lemma printable_dumps_str s : all_chars printable (json.dumps_str s) = true.
Proof.
  unfold json.dumps_str. simpl. by rewrite all_chars_app, printable_escape.
Qed.

Lemma printable_join l :
  Forall (fun x => all_chars printable x = true) l ->
  all_chars printable (json.join "," l) = true.
Proof.
  induction 1 as [|x l Hx Hl IH]; [done|].
  destruct l as [|y l]; [done|].
  change (json.join "," (x :: y :: l))
    with (x +:+ "," +:+ json.join "," (y :: l)).
  by rewrite !all_chars_app, Hx, IH.
Qed.

Lemma printable_dumps v : all_chars printable (json.dumps v) = true.
Proof.
  induction v as [|b|z|f|s|l IH|d IH] using val_ind.
  - done.
  - by destruct b.
  - apply printable_sint.
  - apply printable_float.
  - apply printable_dumps_str.
  - change (json.dumps (PList l))
      with ("[" +:+ json.join "," (map json.dumps l) +:+ "]").
    rewrite !all_chars_app, printable_join; [done|].
    apply Forall_forall. intros x Hx.
    apply list_elem_of_In, in_map_iff in Hx as (y & <- & Hy).
    rewrite Forall_forall in IH. by apply IH, list_elem_of_In.
  - rewrite dumps_PDict. simpl. rewrite all_chars_app, printable_join; [done|].
    apply Forall_forall. intros x Hx.
    apply list_elem_of_In, in_map_iff in Hx as ([k y] & <- & Hy).
    rewrite Forall_forall in IH.
    unfold dumps_member. rewrite !all_chars_app, printable_dumps_str.
    simpl. apply (IH (k, y)). by apply list_elem_of_In.
Qed.

Lemma all_chars_get p s k c :
  all_chars p s = true -> String.get k s = Some c -> p c = true.
Proof.
  revert k. induction s as [|x s IH]; intros k; [by destruct k|].
  simpl. intros [Hx Hs]%andb_true_iff. destruct k as [|k].
  - by intros [= <-].
  - by apply IH.
Qed.

(** X27. The text [serialize_metadata] writes holds no control
    character, whatever the metadata: every character has a code of at
    least 32, so there is no line feed and the metadata block of a file
    is one line. *)
Theorem serialize_metadata_one_line (self : MetadataManager) (metadata : val)
  (created : float) (k : nat) (c : ascii) :
  String.get k (serialize_metadata self metadata created) = Some c ->
  (32 <= nat_of_ascii c)%nat /\ c <> "010"%char.
Proof.
  intros Hk. unfold serialize_metadata in Hk.
  pose proof (all_chars_get _ _ _ _ (printable_dumps _) Hk) as Hc.
  unfold printable in Hc. apply Nat.leb_le in Hc.
  split; [done|]. intros ->.
  change (nat_of_ascii "010") with 10%nat in Hc. lia.
Qed.

Lemma serialize_metadata_one_line_witness :
  String.get 0 (serialize_metadata init (metadata_to_py hello_set) noon)
  = Some "{"%char
  /\ (32 <= nat_of_ascii "{")%nat /\ "{"%char <> "010"%char.
Proof.
  split; [reflexivity|].
  apply (serialize_metadata_one_line init (metadata_to_py hello_set) noon 0).
  reflexivity.
Defined.

End any_file.

(** ** From a Tk position to the offset and back *)

Section positions_back.
Import py text_tracker text_tracker_api.

Lemma lines_length_app a b :
  lines_length (a ++ b) = lines_length a + lines_length b.
Proof. induction a as [|l a IH]; simpl; lia. Qed.

Lemma lines_length_nonneg a : 0 <= lines_length a.
Proof. induction a as [|l a IH]; simpl; unfold str_len; lia. Qed.

(** Two ways to cut the same list of lines at the same number of
    characters cut it at the same line. *)
Lemma lines_cut_unique init l rest init' l' rest' (col col' : Z) :
  init ++ l :: rest = init' ++ l' :: rest' ->
  0 <= col <= str_len l -> 0 <= col' <= str_len l' ->
  lines_length init + col = lines_length init' + col' ->
  List.length init = List.length init' /\ col = col'.
Proof.
  revert init'. induction init as [|x init IH]; intros init' Heq Hc Hc' Hsum.
  - destruct init' as [|x' init']; simpl in *.
    + split; [done|lia].
    + injection Heq as -> Heq.
      pose proof (lines_length_nonneg init'). unfold str_len in *. lia.
  - destruct init' as [|x' init']; simpl in *.
    + injection Heq as <- Heq.
      pose proof (lines_length_nonneg init). unfold str_len in *. lia.
    + injection Heq as <- Heq.
      destruct (IH init' Heq Hc Hc' ltac:(lia)) as [Hlen Hcol].
      split; [by rewrite Hlen|done].
Qed.

(** X28. With a widget attached, for a Tk position on an existing line
    and a column from 0 to the length of that line, the offset
    [_pos_to_index] gives is turned back into that position by
    [_index_to_pos]. *)
Theorem pos_to_index_to_pos (t : TextTracker) (text_content : string)
  (line col : Z) (l : string) :
  text_widget t = Some text_content ->
  1 <= line ->
  split "010" text_content !! Z.to_nat (line - 1) = Some l ->
  0 <= col <= str_len l ->
  _index_to_pos t (_pos_to_index text_content (TkIndex line col))
  = TkIndex line col.
Proof.
  intros Hw Hline Hl Hcol.
  apply list_elem_of_split_length in Hl as (init & rest & Hs & Hlen).
  (* the offset *)
  assert (_pos_to_index text_content (TkIndex line col)
          = lines_length init + col) as ->.
  { unfold _pos_to_index. rewrite Hs.
    replace (Z.to_nat (line - 1)) with (List.length init) by lia.
    pose proof (lines_loop [] init (l :: rest) 0) as Hloop.
    simpl in Hloop. rewrite Hloop.
    unfold len. rewrite length_app. simpl List.length.
    destruct (Z.ltb_spec (line - 1)
                (Z.of_nat (List.length init + S (List.length rest)))); [|lia].
    unfold py.index. destruct (Z.leb_spec 0 (line - 1)); [|lia].
    replace (Z.to_nat (line - 1)) with (List.length init) by lia.
    rewrite lookup_app_r by lia. rewrite Nat.sub_diag. simpl. lia. }
  (* it lies inside the text *)
  destruct (split_prefix "010" text_content (String.length text_content))
    as (init0 & lastp0 & lastfull0 & rest0 & Hp0 & Hs0 & _ & Hsum0); [lia|].
  rewrite substring_full in Hp0.
  assert (lines_length init + col <= str_len text_content) as Hin.
  { unfold str_len. rewrite <- Hsum0.
    assert (lines_length (init ++ l :: rest)
            = lines_length init0 + (str_len lastp0 + 1)) as Hall.
    { rewrite <- Hs, Hp0, lines_length_app. simpl. lia. }
    rewrite lines_length_app in Hall. simpl in Hall.
    pose proof (lines_length_nonneg rest). lia. }
  pose proof (lines_length_nonneg init) as Hnn.
  (* back to the position *)
  unfold _index_to_pos. rewrite Hw.
  assert ((if lines_length init + col >=? str_len text_content
           then split "010" text_content
           else split "010" (slice_to_z text_content (lines_length init + col)))
          = split "010" (String.substring 0
                           (Z.to_nat (lines_length init + col)) text_content))
    as ->.
  { destruct (Z.geb_spec (lines_length init + col) (str_len text_content)).
    - assert (lines_length init + col = str_len text_content) as -> by lia.
      unfold str_len. by rewrite Nat2Z.id, substring_full.
    - unfold slice_to_z, slice_to.
      by destruct (Z.leb_spec 0 (lines_length init + col)); [|lia]. }
  destruct (split_prefix "010" text_content
              (Z.to_nat (lines_length init + col)))
    as (init' & lastp & lastfull & rest' & Hp & Hs' & Hle & Hsum).
  { unfold str_len in Hin. lia. }
  rewrite Hp, last_snoc.
  destruct (lines_cut_unique init l rest init' lastfull rest'
              col (str_len lastp)) as [Hlen' Hcol'].
  - by rewrite <- Hs, <- Hs'.
  - done.
  - unfold str_len. lia.
  - lia.
  - unfold len. rewrite length_app. simpl List.length.
    f_equal; [lia|done].
Qed.

Lemma pos_to_index_to_pos_witness :
  let text_content := String "a" (String "b" (String "010" "cd")) in
  let t := set_text_widget init text_content in
  _pos_to_index text_content (TkIndex 2 1) = 4
  /\ _index_to_pos t (_pos_to_index text_content (TkIndex 2 1)) = TkIndex 2 1.
Proof.
  split; [reflexivity|].
  apply (pos_to_index_to_pos
           (set_text_widget init
              (String "a" (String "b" (String "010" "cd"))))
           (String "a" (String "b" (String "010" "cd"))) 2 1 "cd" eq_refl).
  - lia.
  - reflexivity.
  - unfold str_len. simpl. lia.
Defined.

End positions_back.
